(** * sync-github-ssh-keys: the reconciliation of an authorized_keys file

    A shallow embedding of [main.go].  Go strings are byte sequences and are
    modelled by [string]; the pending key set [map[string]struct{}] is a
    [gset string]; an [io.Reader] is the byte sequence it still has to
    deliver together with the error it reports once the bytes have run out
    ([io.EOF] for a file read to its end); the [io.Writer] handed to
    [ensureKeysetUpToDate] is the buffer of [syncGithubKeys], modelled by
    the bytes written so far (writing to a [bytes.Buffer] returns no
    error, so the error returns of lines 149-151, 157-159 and 168-170 are
    never taken).  Go leaves the iteration order of a map unspecified, so
    the function that ranges over the pending set takes that order as an
    argument.  Line numbers are natural numbers: the counter [i] of the
    loop stays below the length of the input plus two. *)

From Stdlib Require Import Ascii.
From stdpp Require Import gmap strings list.

(** ** Strings *)

Module Str.

Definition LF : ascii := "010"%char.
Definition SP : ascii := " "%char.

(** The one-byte strings ["\n"] and [" "]. *)
Definition nl : string := String LF "".
Definition sp : string := String SP "".

(** [c] occurs in [s]. *)
Fixpoint mem (c : ascii) (s : string) : bool :=
  match s with
  | "" => false
  | String a s' => if decide (a = c) then true else mem c s'
  end.

(** Number of occurrences of [c] in [s] (Go: [strings.Count]). *)
Fixpoint count (c : ascii) (s : string) : nat :=
  match s with
  | "" => 0
  | String a s' => (if decide (a = c) then 1 else 0) + count c s'
  end.

(** The slices [s[:n]] and [s[n:]], clipped at the length of [s]. *)
Fixpoint upto (n : nat) (s : string) : string :=
  match n, s with
  | S n', String a s' => String a (upto n' s')
  | _, _ => ""
  end.

Fixpoint from (n : nat) (s : string) : string :=
  match n, s with
  | S n', String _ s' => from n' s'
  | _, _ => s
  end.

(** The slice [s[:len(s)-1]] of a string that is not empty. *)
Fixpoint init (s : string) : string :=
  match s with
  | "" => ""
  | String _ "" => ""
  | String c rest => String c (init rest)
  end.

(** Concatenation of a list of strings. *)
Fixpoint flatten (l : list string) : string :=
  match l with
  | [] => ""
  | s :: l' => s +:+ flatten l'
  end.

(** Every string of [ls] followed by a line terminator: the text of a
    file whose lines are [ls]. *)
Definition unlines (ls : list string) : string :=
  flatten ((λ l, l +:+ nl) <$> ls).

End Str.

(** ** The parts of Go's library the program calls *)

Module Go.

(** Errors: [errors.Errorf] with its one argument, an error raised by the
    operating system, the network or a library, and [errors.Wrap]. *)
Inductive error : Type :=
| Errorf (msg : string) (arg : nat)
| Failure (what : string)
| Wrap (e : error) (msg : string).

#[global] Instance error_eq_dec : EqDecision error.
Proof. solve_decision. Defined.

(** [io.EOF]. *)
Definition EOF : error := Failure "EOF".

(** An [io.Reader]: the bytes it has yet to deliver, and the error it
    reports once they have run out. *)
Record Reader : Type := mkReader {
  unread : string;
  atEnd : error;
}.

(** [strings.NewReader(s)]: delivers [s], then [io.EOF]. *)
Definition NewReader (s : string) : Reader := mkReader s EOF.

(** The bytes of [s] up to and including the first [delim], the bytes
    after it, and whether [s] ran out before a [delim] was found. *)
Fixpoint scan (delim : ascii) (s : string) : string * string * bool :=
  match s with
  | "" => ("", "", true)
  | String c s' =>
      if decide (c = delim) then (String c "", s', false)
      else let '(line, rest, short) := scan delim s' in
           (String c line, rest, short)
  end.

(** [bufio.Reader.ReadString(delim)]: the bytes up to and including the
    first [delim] and no error, or, when the reader runs out before a
    delimiter is found, the bytes read before the error and the error
    itself. *)
Definition ReadString (delim : ascii) (r : Reader)
  : string * Reader * option error :=
  let '(line, rest, short) := scan delim (unread r) in
  (line, mkReader rest (atEnd r), if short then Some (atEnd r) else None).

(** [strings.Index] followed by the two slices [s[:m]] and [s[m+1:]] for
    a one-byte separator: [None] when the separator does not occur. *)
Fixpoint cut (sep : ascii) (s : string) : option (string * string) :=
  match s with
  | "" => None
  | String c s' =>
      if decide (c = sep) then Some ("", s')
      else match cut sep s' with
           | Some (a, b) => Some (String c a, b)
           | None => None
           end
  end.

(** [strings.SplitN(s, sep, n)] for a one-byte separator and [n >= 0]:
    at most [n] substrings, the last one being the unsplit remainder. *)
Fixpoint SplitN (s : string) (sep : ascii) (n : nat) : list string :=
  match n with
  | 0 => []
  | 1 => [s]
  | S n' =>
      match cut sep s with
      | Some (a, rest) => a :: SplitN rest sep n'
      | None => [s]
      end
  end.

End Go.

Export Go.

(** ** The program *)

Definition keyMagicComment : string := "synced from github".

(** The variables [ensureKeysetUpToDate] updates while it runs: the map
    [newKeysetHashed], the bytes written to [output], and the lines handed
    to [log.Printf]. *)
Record state : Type := State {
  newKeysetHashed : gset string;
  output : string;
  logged : list string;
}.

(** [fmt.Fprintf(output, "%v %v\n", key, keyMagicComment)]. *)
Definition Fprintf_key (key : string) (st : state) : state :=
  State (newKeysetHashed st)
        (output st +:+ key +:+ Str.sp +:+ keyMagicComment +:+ Str.nl)
        (logged st).

(** [fmt.Fprintln(output, line)]. *)
Definition Fprintln (line : string) (st : state) : state :=
  State (newKeysetHashed st) (output st +:+ line +:+ Str.nl) (logged st).

(** [log.Printf(msg + "%v", key)]. *)
Definition Printf (msg key : string) (st : state) : state :=
  State (newKeysetHashed st) (output st) (logged st ++ [msg +:+ key]).

(** [delete(newKeysetHashed, key)]. *)
Definition delete (key : string) (st : state) : state :=
  State (newKeysetHashed st ∖ {[key]}) (output st) (logged st).

(** [line[:len(line)-1]] when [line] ends in a line feed, [line] itself
    otherwise (lines 131-133). *)
Fixpoint trimLF (line : string) : string :=
  match line with
  | "" => ""
  | String c "" => if decide (c = Str.LF) then "" else line
  | String c rest => String c (trimLF rest)
  end.

(** The first two parts joined by a space (line 142). *)
Definition keyOfParts (parts : list string) : string :=
  nth 0 parts "" +:+ Str.sp +:+ nth 1 parts "".

(** One turn of the loop once a line has been read (lines 137-162): the
    error to return, or the state after [delete]. *)
Definition processLine (i : nat) (line : string) (st : state) : error + state :=
  let parts := SplitN line Str.SP 3 in
  if length parts <? 2 then
    inl (Errorf "line %v in authorized keys file malformed" i)
  else
    let key := keyOfParts parts in
    let st' :=
      if (3 <? length parts) && bool_decide (nth 2 parts "" = keyMagicComment)
      then
        if negb (bool_decide (key ∈ newKeysetHashed st))
        then Fprintf_key key st
        else Printf "removing key: " key st
      else Fprintln line st
    in
    inr (delete key st').

(** The reading loop (lines 123-163) on the reader [r].  Every turn that
    does not leave the loop consumes at least one byte, so [fuel] above
    the number of unread bytes is never used up; [None] stands for fuel
    running out. *)
Fixpoint readLoop (fuel i : nat) (r : Reader) (st : state)
  : option (state * option error) :=
  match fuel with
  | 0 => None
  | S fuel' =>
      let '(line, r', err) := ReadString Str.LF r in
      match err with
      | Some e =>
          if decide (e = EOF) then Some (st, None)
          else Some (st, Some (Wrap e "could not read authorized keys file"))
      | None =>
          match processLine i (trimLF line) st with
          | inl e => Some (st, Some e)
          | inr st' => readLoop fuel' (S i) r' st'
          end
      end
  end.

(** The closing loop over what is left of the map (lines 165-171); [keys]
    is the order in which [range] delivers it. *)
Definition addKeys (keys : list string) (st : state) : state :=
  foldl (λ st key, Fprintf_key key (Printf "adding key: " key st)) st keys.

(** Lines 117-120. *)
Definition hashKeyset (newKeyset : list string) : gset string :=
  foldl (λ m key, {[key]} ∪ m) ∅ newKeyset.

(** What a call leaves behind: the bytes written, the log, and the error
    returned ([None] for [nil]). *)
Record result : Type := Result {
  written : string;
  logs : list string;
  err : option error;
}.

Definition ensureKeysetUpToDate
    (range : gset string → list string)
    (newKeyset : list string) (input : Reader) : option result :=
  let st0 := State (hashKeyset newKeyset) "" [] in
  match readLoop (S (String.length (unread input))) 1 input st0 with
  | None => None
  | Some (st, Some e) => Some (Result (output st) (logged st) (Some e))
  | Some (st, None) =>
      let st' := addKeys (range (newKeysetHashed st)) st in
      Some (Result (output st') (logged st') None)
  end.

(** An order in which [range] may deliver a map: every key once. *)
Definition RangeOrder (range : gset string → list string) : Prop :=
  ∀ m, range m ≡ₚ elements m.

(** ** The surrounding cycle: [getSSHKeys] and [syncGithubKeys] *)

(** An [http.Response], as far as the program looks at it. *)
Record Response : Type := mkResponse {
  StatusCode : nat;
  Body : Reader;
}.

(** What the outside world answers during one cycle: the failure of
    [http.NewRequest], the answer of [http.DefaultClient.Do], and the
    failure, if any, of each system call on the file.  A failing read has
    delivered some bytes already, a failing [io.Copy] has written some. *)
Record world : Type := World {
  newRequestErr : option error;
  httpDo : error + Response;
  openErr : option error;
  readErr : option (nat * error);
  seekErr : option error;
  copyErr : option (nat * error);
  truncateErr : option error;
}.

(** The loop of [getSSHKeys] (lines 195-205). *)
Fixpoint readKeys (fuel : nat) (buf : Reader) (publicKeys : list string)
  : option (error + list string) :=
  match fuel with
  | 0 => None
  | S fuel' =>
      let '(publicKey, buf', err) := ReadString Str.LF buf in
      match err with
      | Some e =>
          if decide (e = EOF) then Some (inr publicKeys)
          else Some (inl (Wrap e "failed to read response body"))
      | None => readKeys fuel' buf' (publicKeys ++ [Str.init publicKey])
      end
  end.

(** Lines 176-208. *)
Definition getSSHKeys (w : world) : option (error + list string) :=
  match newRequestErr w with
  | Some e => Some (inl (Wrap e "could not construct request"))
  | None =>
  match httpDo w with
  | inl e => Some (inl (Wrap e "could not make request"))
  | inr resp =>
      if (StatusCode resp <? 200) || (300 <=? StatusCode resp)
      then Some (inl (Errorf "invalid status code: %v" (StatusCode resp)))
      else readKeys (S (String.length (unread (Body resp)))) (Body resp) []
  end end.

(** The file opened for reading: its bytes, or some of them and the
    error of the failing read. *)
Definition fileReader (w : world) (file : string) : Reader :=
  match readErr w with
  | Some (n, e) => mkReader (Str.upto n file) e
  | None => NewReader file
  end.

(** Writing [data] into a file holding [file], from offset 0. *)
Definition writeAt0 (data file : string) : string :=
  data +:+ Str.from (String.length data) file.

(** One cycle on a file holding [file]: what the file holds afterwards
    and the error returned (lines 80-114). *)
Definition syncGithubKeys
    (range : gset string → list string) (w : world) (file : string)
  : option (string * option error) :=
  fetched ← getSSHKeys w;
  match fetched with
  | inl e => Some (file, Some (Wrap e "could not get public keys from github"))
  | inr publicKeys =>
  match openErr w with
  | Some e => Some (file, Some (Wrap e "could not open authorized keys file"))
  | None =>
  res ← ensureKeysetUpToDate range publicKeys (fileReader w file);
  match err res with
  | Some e => Some (file, Some (Wrap e "could not update authorized keys file"))
  | None =>
  let outputBuffer := written res in
  match seekErr w with
  | Some e => Some (file, Some (Wrap e "could not seek authorized keys file"))
  | None =>
  match copyErr w with
  | Some (k, e) =>
      Some (writeAt0 (Str.upto k outputBuffer) file,
            Some (Wrap e "could not copy new contents to authorized keys file"))
  | None =>
  let n := String.length outputBuffer in
  let file' := writeAt0 outputBuffer file in
  match truncateErr w with
  | Some e => Some (file', Some (Wrap e "could not truncate authorized keys file"))
  | None => Some (Str.upto n file', None)
  end end end end end end.

(** A world in which the key host answers 200 with the keys [keys], one
    per line, and no system call fails. *)
Definition calm (keys : list string) : world :=
  World None (inr (mkResponse 200 (NewReader (Str.unlines keys))))
        None None None None None.

(** ** Vocabulary of the specification *)

(** The lines the reading loop obtains from a file: its segments that end
    in a line feed, without the line feed, and the bytes that follow the
    last line feed. *)
Fixpoint splitLines (s : string) : list string * string :=
  match s with
  | "" => ([], "")
  | String c s' =>
      let '(ls, tl) := splitLines s' in
      if decide (c = Str.LF) then ("" :: ls, tl)
      else match ls with
           | [] => ([], String c tl)
           | l :: ls' => (String c l :: ls', tl)
           end
  end.

Definition readLines (s : string) : list string := (splitLines s).1.
Definition lastFragment (s : string) : string := (splitLines s).2.

(** The KeyIdentity of a line: its first two parts joined by a space. *)
Definition keyOf (line : string) : string :=
  keyOfParts (SplitN line Str.SP 3).

(** A line that splits into at least two parts. *)
Definition wellFormed (line : string) : Prop :=
  2 ≤ length (SplitN line Str.SP 3).

(** A ManagedKey: a third part exists and equals the ownership marker. *)
Definition isManagedKey (line : string) : bool :=
  match SplitN line Str.SP 3 with
  | [_; _; c] => bool_decide (c = keyMagicComment)
  | _ => false
  end.

(** The canonical form of a managed line. *)
Definition canonical (key : string) : string :=
  key +:+ Str.sp +:+ keyMagicComment.

(** The error of line [i]. *)
Definition MalformedLine (i : nat) : error :=
  Errorf "line %v in authorized keys file malformed" i.

(** A raw key made of exactly two tokens: one space, no line feed. *)
Definition twoTokens (key : string) : Prop :=
  Str.count Str.SP key = 1 ∧ Str.mem Str.LF key = false.

(** A string without a line feed. *)
Definition noLF (s : string) : Prop := Str.mem Str.LF s = false.

(** The turns of the loop over lines already read. *)
Fixpoint processLines (i : nat) (ls : list string) (st : state)
  : state * option error :=
  match ls with
  | [] => (st, None)
  | l :: ls' =>
      match processLine i l st with
      | inl e => (st, Some e)
      | inr st' => processLines (S i) ls' st'
      end
  end.

(** How the loop ends on a reader that has run out reporting [e], the
    lines read before having been processed with outcome [r]. *)
Definition endOfInput (e : error) (r : state * option error)
  : state * option error :=
  match r with
  | (st, None) =>
      if decide (e = EOF) then (st, None)
      else (st, Some (Wrap e "could not read authorized keys file"))
  | (st, Some e') => (st, Some e')
  end.

(** The keys of the lines [ls]. *)
Definition keysOf (ls : list string) : gset string :=
  list_to_set (keyOf <$> ls).

(** The line logged for a key that is added. *)
Definition adding (key : string) : string := "adding key: " +:+ key.

(** The keys still in the map once the lines [ls] have been processed. *)
Definition pendingAfter (newKeyset ls : list string) : gset string :=
  hashKeyset newKeyset ∖ keysOf ls.

(** The identities of the managed lines of a file. *)
Definition managedIdentities (file : string) : gset string :=
  list_to_set (keyOf <$> filter (λ l, isManagedKey l = true) (readLines file)).

(** The variables of the loop once the lines [ls] have been processed,
    starting from the key set [newKeyset]. *)
Definition stateAfter (newKeyset ls : list string) : state :=
  (processLines 1 ls (State (hashKeyset newKeyset) "" [])).1.

(** ** The rest of [main] *)

(** What [main] and the functions it calls print on the standard error:
    the usage message of lines 39-40, a line of the [log.Printf] calls of
    [ensureKeysetUpToDate] (lines 153 and 166), or the line of
    [log.Printf("sync failed: %v", err)]. *)
Inductive printed : Type :=
| Usage
| Logged (line : string)
| SyncFailed (e : error).

(** The lines [ensureKeysetUpToDate] logs during one cycle: those of its
    call, when the cycle gets as far as calling it. *)
Definition cycleLog
    (range : gset string → list string) (w : world) (file : string)
  : list string :=
  match getSSHKeys w with
  | Some (inr publicKeys) =>
      match openErr w with
      | Some _ => []
      | None =>
          match ensureKeysetUpToDate range publicKeys (fileReader w file) with
          | Some res => logs res
          | None => []
          end
      end
  | _ => []
  end.

(** [main] with [-disable-periodic-sync] (lines 37-52): what the file
    holds when the process exits, what was printed, and the exit
    status.  [githubUsername] is [flag.Arg(0)], empty when there is no
    argument. *)
Definition mainOneShot
    (range : gset string → list string) (githubUsername : string)
    (w : world) (file : string) : option (string * list printed * nat) :=
  if decide (githubUsername = "") then Some (file, [Usage], 1)
  else
    '(file', err) ← syncGithubKeys range w file;
    let logged := Logged <$> cycleLog range w file in
    match err with
    | Some e => Some (file', logged ++ [SyncFailed e], 1)
    | None => Some (file', logged, 0)
    end.

(** The loop of [main] that serves the triggers (lines 72-77), over the
    cycles triggered so far: each cycle runs to its end before the next
    one starts, in its own world and with its own order of map iteration;
    the error of a cycle is logged and the loop goes on.  The goroutines
    that send the triggers (the ticker and the signal handler) are not
    part of the model. *)
Fixpoint worker
    (cycles : list ((gset string → list string) * world))
    (file : string) (failures : list error) : option (string * list error) :=
  match cycles with
  | [] => Some (file, failures)
  | (range, w) :: rest =>
      '(file', err) ← syncGithubKeys range w file;
      worker rest file'
        (match err with Some e => failures ++ [e] | None => failures end)
  end.

(** A file on which the keys [keys] need no work: it ends in a line feed
    (or is empty), every line splits into two parts, and every key is the
    key of a line. *)
Definition converged (keys : list string) (file : string) : Prop :=
  lastFragment file = ""
  ∧ Forall wellFormed (readLines file)
  ∧ ∀ k, k ∈ keys → ∃ l, l ∈ readLines file ∧ keyOf l = k.

(** A world in which reading the file does not stop short of its end
    without an error. *)
Definition wholeRead (w : world) : Prop :=
  match readErr w with
  | Some (_, e) => e ≠ EOF
  | None => True
  end.

(** A world whose key host fails or answers with keys among [keys]. *)
Definition fetchesWithin (keys : list string) (w : world) : Prop :=
  ∀ keys', getSSHKeys w = Some (inr keys') → ∀ k, k ∈ keys' → k ∈ keys.

(** A world whose key host answers with the status [status] and the body
    [body], and in which no system call fails. *)
Definition answering (status : nat) (body : Reader) : world :=
  World None (inr (mkResponse status body)) None None None None None.

(** * Facts *)

(** ** Examples *)

(** The example of the specification: the managed key that is still
    fetched stays in place, the unmanaged line is untouched, the new key
    is appended. *)
Example ex1 :
  ensureKeysetUpToDate elements ["ssh-rsa AAA"; "ssh-rsa CCC"]
    (NewReader (Str.unlines ["ssh-rsa AAA synced from github"; "ssh-ed25519 BBB some-comment"]))
  = Some (Result
      (Str.unlines ["ssh-rsa AAA synced from github"; "ssh-ed25519 BBB some-comment";
                    "ssh-rsa CCC synced from github"])
      ["adding key: ssh-rsa CCC"] None).
Proof. vm_compute. reflexivity. Qed.

(** A whole cycle in a calm world. *)
Example ex_sync :
  syncGithubKeys elements (calm ["ssh-rsa AAA"])
    (Str.unlines ["ssh-rsa OLD synced from github"; "ssh-ed25519 BBB me"])
  = Some (Str.unlines ["ssh-rsa OLD synced from github"; "ssh-ed25519 BBB me";
                       "ssh-rsa AAA synced from github"], None).
Proof. vm_compute. reflexivity. Qed.

(** The lines of a file whose last line has no terminator. *)
Example ex_lines :
  splitLines (Str.unlines ["a b"; ""; "c"] +:+ "d e") = (["a b"; ""; "c"], "d e").
Proof. vm_compute. reflexivity. Qed.

(** ** Strings *)

Module StrFacts.
Import Str.

Lemma app_cons c s t : String c s +:+ t = String c (s +:+ t).
Proof. reflexivity. Qed.

Lemma app_nil_l s : "" +:+ s = s.
Proof. reflexivity. Qed.

Lemma app_nil_r s : s +:+ "" = s.
Proof. induction s as [|c s IH]; [done|]. by rewrite app_cons, IH. Qed.

Lemma app_assoc a b c : (a +:+ b) +:+ c = a +:+ b +:+ c.
Proof. induction a as [|x a IH]; [done|]. by rewrite !app_cons, IH. Qed.

Lemma length_app a b :
  String.length (a +:+ b) = String.length a + String.length b.
Proof. induction a as [|x a IH]; [done|]. rewrite app_cons. simpl. by rewrite IH. Qed.

Lemma upto_app a b : upto (String.length a) (a +:+ b) = a.
Proof. induction a as [|x a IH]; [by destruct b|]. rewrite app_cons. simpl. by rewrite IH. Qed.

Lemma from_app a b : from (String.length a) (a +:+ b) = b.
Proof. induction a as [|x a IH]; [by destruct b|]. rewrite app_cons. simpl. by rewrite IH. Qed.

Lemma upto_all a : upto (String.length a) a = a.
Proof. by rewrite <-(app_nil_r a) at 2; rewrite upto_app. Qed.

Lemma mem_app c a b : mem c (a +:+ b) = mem c a || mem c b.
Proof.
  induction a as [|x a IH]; [done|]. rewrite app_cons. simpl.
  by destruct (decide (x = c)).
Qed.

Lemma count_app c a b : count c (a +:+ b) = count c a + count c b.
Proof.
  induction a as [|x a IH]; [done|]. rewrite app_cons. simpl. rewrite IH. lia.
Qed.

Lemma count_0_mem c s : count c s = 0 ↔ mem c s = false.
Proof.
  induction s as [|x s IH]; [done|]. simpl.
  destruct (decide (x = c)); [split; [lia|done]|]. by rewrite <-IH.
Qed.

Lemma flatten_app l k : flatten (l ++ k) = flatten l +:+ flatten k.
Proof. induction l as [|s l IH]; [done|]. simpl. by rewrite IH, app_assoc. Qed.

Lemma unlines_nil : unlines [] = "".
Proof. reflexivity. Qed.

Lemma unlines_cons l ls : unlines (l :: ls) = l +:+ nl +:+ unlines ls.
Proof. unfold unlines. simpl. by rewrite app_assoc. Qed.

Lemma unlines_app l k : unlines (l ++ k) = unlines l +:+ unlines k.
Proof. unfold unlines. by rewrite fmap_app, flatten_app. Qed.

Lemma unlines_snoc ls l : unlines (ls ++ [l]) = unlines ls +:+ l +:+ nl.
Proof. by rewrite unlines_app, unlines_cons, unlines_nil, app_nil_r. Qed.

End StrFacts.

(** ** Reading and splitting *)

Module GoFacts.
Import Str StrFacts.

Lemma scan_line l rest :
  mem LF l = false →
  scan LF (l +:+ nl +:+ rest) = (l +:+ nl, rest, false).
Proof.
  induction l as [|c l IH]; intros Hl.
  - unfold nl. rewrite app_nil_l, app_cons, app_nil_l. done.
  - simpl in Hl. destruct (decide (c = LF)) as [|Hc]; [done|].
    rewrite !app_cons. simpl. rewrite decide_False by done. by rewrite IH.
Qed.

Lemma scan_short tl :
  mem LF tl = false → scan LF tl = (tl, "", true).
Proof.
  induction tl as [|c tl IH]; intros Hl; [done|].
  simpl in Hl. destruct (decide (c = LF)) as [|Hc]; [done|].
  simpl. rewrite decide_False by done. by rewrite IH.
Qed.

(** A reader delivers a string without a final delimiter only together
    with an error. *)
Lemma scan_complete delim s line rest :
  scan delim s = (line, rest, false) →
  ∃ l, line = l +:+ String delim "" ∧ mem delim l = false ∧ s = line +:+ rest.
Proof.
  revert line rest. induction s as [|c s IH]; intros line rest H; [done|].
  simpl in H. destruct (decide (c = delim)) as [->|Hc].
  - simplify_eq. by exists "".
  - destruct (scan delim s) as [[line' rest'] short'] eqn:E. simplify_eq.
    destruct (IH _ _ eq_refl) as (l & -> & Hl & ->).
    exists (String c l). simpl. by rewrite decide_False.
Qed.

Lemma ReadString_line l rest e :
  mem LF l = false →
  ReadString LF (mkReader (l +:+ nl +:+ rest) e)
  = (l +:+ nl, mkReader rest e, None).
Proof. intros Hl. unfold ReadString. simpl. by rewrite scan_line. Qed.

Lemma ReadString_end tl e :
  mem LF tl = false →
  ReadString LF (mkReader tl e) = (tl, mkReader "" e, Some e).
Proof. intros Hl. unfold ReadString. simpl. by rewrite scan_short. Qed.

Lemma init_nl l : init (l +:+ nl) = l.
Proof.
  induction l as [|c l IH]; [done|].
  rewrite app_cons. simpl. rewrite IH.
  destruct (l +:+ nl) eqn:E; [by destruct l|done].
Qed.

Lemma cut_Some sep s a b :
  cut sep s = Some (a, b) → s = a +:+ String sep b ∧ mem sep a = false.
Proof.
  revert a. induction s as [|c s IH]; intros a H; [done|].
  simpl in H. destruct (decide (c = sep)) as [->|Hc]; [by simplify_eq|].
  destruct (cut sep s) as [[a' b']|]; [|done]. simplify_eq.
  destruct (IH _ eq_refl) as [-> Ha]. simpl. by rewrite decide_False.
Qed.

Lemma cut_None sep s : cut sep s = None ↔ mem sep s = false.
Proof.
  induction s as [|c s IH]; [done|]. simpl.
  destruct (decide (c = sep)); [done|].
  rewrite <-IH. by destruct (cut sep s) as [[??]|].
Qed.

Lemma cut_app sep a b :
  mem sep a = false → cut sep (a +:+ String sep b) = Some (a, b).
Proof.
  induction a as [|c a IH]; intros Ha.
  - simpl. by rewrite decide_True.
  - simpl in Ha. destruct (decide (c = sep)); [done|].
    rewrite app_cons. simpl. rewrite decide_False by done. by rewrite IH.
Qed.

Lemma SplitN_length s sep n : length (SplitN s sep n) ≤ n.
Proof.
  revert s. induction n as [|n IH]; intros s; [done|].
  destruct n as [|n]; [simpl; lia|].
  change (SplitN s sep (S (S n))) with
    (match cut sep s with
     | Some (a, rest) => a :: SplitN rest sep (S n)
     | None => [s]
     end).
  destruct (cut sep s) as [[a rest]|]; [|simpl; lia].
  cbn [length]. specialize (IH rest). lia.
Qed.

(** The parts, joined by the separator, are the string that was split. *)
Lemma SplitN_3 s sep a b c :
  SplitN s sep 3 = [a; b; c] →
  s = a +:+ String sep "" +:+ b +:+ String sep "" +:+ c.
Proof.
  simpl. destruct (cut sep s) as [[a' r]|] eqn:E1; [|done].
  destruct (cut sep r) as [[b' r']|] eqn:E2; [|done].
  intros ?; simplify_eq.
  apply cut_Some in E1 as [-> _]. apply cut_Some in E2 as [-> _]. done.
Qed.

Lemma SplitN_3_malformed s sep :
  length (SplitN s sep 3) < 2 ↔ mem sep s = false.
Proof.
  simpl. destruct (cut sep s) as [[a r]|] eqn:E1.
  - apply cut_Some in E1 as [-> _]. rewrite mem_app. simpl.
    rewrite decide_True by done. rewrite orb_true_r.
    destruct (cut sep r) as [[??]|]; simpl; split; (lia || done).
  - apply cut_None in E1. simpl. split; [done|lia].
Qed.

Lemma trimLF_nl l : trimLF (l +:+ nl) = l.
Proof.
  induction l as [|c l IH]; [done|].
  rewrite app_cons. simpl. rewrite IH.
  destruct (l +:+ nl) eqn:E; [by destruct l|done].
Qed.

End GoFacts.

(** ** The lines of a file *)

Module LineFacts.
Import Str StrFacts.

Lemma splitLines_fragment tl : noLF tl → splitLines tl = ([], tl).
Proof.
  unfold noLF. induction tl as [|c tl IH]; intros H; [done|].
  simpl in H. destruct (decide (c = LF)) as [|Hc]; [done|].
  simpl. rewrite IH by done. by rewrite decide_False.
Qed.

Lemma splitLines_line l rest :
  noLF l →
  splitLines (l +:+ nl +:+ rest)
  = (l :: (splitLines rest).1, (splitLines rest).2).
Proof.
  unfold noLF. induction l as [|c l IH]; intros H.
  - unfold nl. rewrite app_nil_l, app_cons, app_nil_l. simpl.
    by destruct (splitLines rest).
  - simpl in H. destruct (decide (c = LF)) as [|Hc]; [done|].
    rewrite app_cons. simpl. rewrite IH by done. by rewrite decide_False.
Qed.

Lemma splitLines_unlines ls tl :
  Forall noLF ls → noLF tl → splitLines (unlines ls +:+ tl) = (ls, tl).
Proof.
  intros Hls Htl. induction Hls as [|l ls Hl _ IH].
  - by apply splitLines_fragment.
  - rewrite unlines_cons, !app_assoc, splitLines_line by done. by rewrite IH.
Qed.

(** Every file is its lines, each with its terminator, followed by the
    last fragment. *)
Lemma splitLines_spec s :
  s = unlines (readLines s) +:+ lastFragment s
  ∧ Forall noLF (readLines s) ∧ noLF (lastFragment s).
Proof.
  unfold readLines, lastFragment, noLF.
  induction s as [|c s (IH1 & IH2 & IH3)]; [by repeat split|].
  simpl. destruct (splitLines s) as [ls tl]; simpl in *.
  destruct (decide (c = LF)) as [->|Hc]; simpl.
  - split_and!; [by rewrite unlines_cons, IH1 at 1|by constructor|done].
  - destruct ls as [|l ls]; simpl.
    + split_and!; [by rewrite IH1 at 1|done|]. by rewrite decide_False.
    + inversion_clear IH2 as [|?? Hl Hls]. split_and!.
      * rewrite IH1 at 1. by rewrite !unlines_cons.
      * constructor; [|done]. simpl. by rewrite decide_False.
      * done.
Qed.

Lemma readLines_unlines ls tl :
  Forall noLF ls → noLF tl → readLines (unlines ls +:+ tl) = ls.
Proof. intros. unfold readLines. by rewrite splitLines_unlines. Qed.

(** What follows the lines of a file does not change them. *)
Lemma readLines_app ls rest :
  Forall noLF ls → readLines (unlines ls +:+ rest) = ls ++ readLines rest.
Proof.
  intros Hls. destruct (splitLines_spec rest) as (E & H1 & H2).
  rewrite E at 1. rewrite <-app_assoc, <-unlines_app.
  apply readLines_unlines; [|done]. by apply Forall_app.
Qed.

Lemma lastFragment_unlines ls : Forall noLF ls → lastFragment (unlines ls) = "".
Proof.
  intros. unfold lastFragment.
  by rewrite <-(app_nil_r (unlines ls)), splitLines_unlines.
Qed.

End LineFacts.

(** ** The loop *)

Module LoopFacts.
Import Str StrFacts GoFacts LineFacts.

Lemma wellFormed_dec line : Decision (wellFormed line).
Proof. unfold wellFormed. apply _. Qed.

(** No line has more than three parts, so the test [len(parts) > 3] of
    line 145 fails and every line that has two parts is written out as it
    was read. *)
Lemma processLine_eq i line st :
  processLine i line st =
  if length (SplitN line SP 3) <? 2 then inl (MalformedLine i)
  else inr (delete (keyOf line) (Fprintln line st)).
Proof.
  unfold processLine. cbv zeta.
  destruct (Nat.ltb_spec (length (SplitN line SP 3)) 2); [done|].
  pose proof (SplitN_length line SP 3) as Hle.
  destruct (Nat.ltb_spec 3 (length (SplitN line SP 3))); [lia|done].
Qed.

Lemma processLine_wellFormed i line st :
  wellFormed line →
  processLine i line st = inr (delete (keyOf line) (Fprintln line st)).
Proof.
  unfold wellFormed. intros H. rewrite processLine_eq.
  by destruct (Nat.ltb_spec (length (SplitN line SP 3)) 2); [lia|].
Qed.

Lemma processLine_malformed i line st :
  ¬ wellFormed line → processLine i line st = inl (MalformedLine i).
Proof.
  unfold wellFormed. intros H. rewrite processLine_eq.
  by destruct (Nat.ltb_spec (length (SplitN line SP 3)) 2); [|lia].
Qed.

Lemma readLoop_S fuel i r st :
  readLoop (S fuel) i r st =
  let '(line, r', err) := ReadString LF r in
  match err with
  | Some e =>
      if decide (e = EOF) then Some (st, None)
      else Some (st, Some (Wrap e "could not read authorized keys file"))
  | None =>
      match processLine i (trimLF line) st with
      | inl e => Some (st, Some e)
      | inr st' => readLoop fuel (S i) r' st'
      end
  end.
Proof. reflexivity. Qed.

Lemma readLoop_lines ls tl e fuel i st :
  Forall noLF ls → noLF tl →
  String.length (unlines ls +:+ tl) < fuel →
  readLoop fuel i (mkReader (unlines ls +:+ tl) e) st
  = Some (endOfInput e (processLines i ls st)).
Proof.
  intros Hls Htl. revert fuel i st.
  induction Hls as [|l ls Hl _ IH]; intros fuel i st Hfuel.
  - destruct fuel as [|fuel]; [lia|].
    rewrite readLoop_S, unlines_nil, app_nil_l, ReadString_end by done.
    simpl. by destruct (decide (e = EOF)).
  - destruct fuel as [|fuel]; [lia|].
    rewrite unlines_cons, !app_assoc in Hfuel |- *.
    rewrite !length_app in Hfuel. simpl in Hfuel.
    rewrite readLoop_S, ReadString_line, trimLF_nl by done.
    cbn [processLines].
    destruct (processLine i l st) as [e'|st']; [done|].
    apply IH. rewrite length_app. lia.
Qed.

Lemma processLines_ok ls i st :
  Forall wellFormed ls →
  processLines i ls st =
  (State (newKeysetHashed st ∖ keysOf ls) (output st +:+ unlines ls) (logged st),
   None).
Proof.
  intros Hls. revert i st. induction Hls as [|l ls Hl _ IH]; intros i st.
  - simpl. destruct st as [m o lg]. simpl. rewrite app_nil_r. do 2 f_equal.
    unfold keysOf. set_solver.
  - simpl. rewrite processLine_wellFormed, IH by done. simpl.
    rewrite unlines_cons, !app_assoc. do 2 f_equal.
    unfold keysOf. rewrite fmap_cons. set_solver.
Qed.

Lemma processLines_bad pre bad post i st :
  Forall wellFormed pre → ¬ wellFormed bad →
  processLines i (pre ++ bad :: post) st =
  (State (newKeysetHashed st ∖ keysOf pre) (output st +:+ unlines pre) (logged st),
   Some (MalformedLine (i + length pre))).
Proof.
  intros Hpre Hbad. revert i st. induction Hpre as [|l ls Hl _ IH]; intros i st.
  - simpl. rewrite processLine_malformed by done.
    destruct st as [m o lg]. simpl. rewrite app_nil_r, Nat.add_0_r.
    do 2 f_equal. unfold keysOf. set_solver.
  - simpl. rewrite processLine_wellFormed, IH by done. simpl.
    rewrite unlines_cons, !app_assoc. rewrite <-Nat.add_succ_comm.
    do 2 f_equal. unfold keysOf. rewrite fmap_cons. set_solver.
Qed.

(** A list of lines either is well formed throughout or has a first
    malformed line. *)
Lemma first_malformed ls :
  Forall wellFormed ls
  ∨ ∃ pre bad post,
      ls = pre ++ bad :: post ∧ Forall wellFormed pre ∧ ¬ wellFormed bad.
Proof.
  induction ls as [|l ls IH]; [by left|].
  destruct (wellFormed_dec l) as [Hl|Hl].
  - destruct IH as [IH|(pre & bad & post & -> & Hpre & Hbad)].
    + left. by constructor.
    + right. exists (l :: pre), bad, post. split_and!; [done| |done].
      by constructor.
  - right. by exists [], l, ls.
Qed.

Lemma addKeys_spec keys st :
  addKeys keys st =
  State (newKeysetHashed st)
        (output st +:+ unlines (canonical <$> keys))
        (logged st ++ (adding <$> keys)).
Proof.
  unfold addKeys. revert st. induction keys as [|k keys IH]; intros st.
  - simpl. destruct st. simpl.
    by rewrite unlines_nil, app_nil_r, (right_id_L [] (++)).
  - simpl. rewrite IH. unfold Fprintf_key, Printf, canonical, adding. simpl.
    rewrite unlines_cons, !app_assoc, <-(assoc_L (++)). done.
Qed.

Lemma elem_of_hashKeyset k newKeyset :
  k ∈ hashKeyset newKeyset ↔ k ∈ newKeyset.
Proof.
  unfold hashKeyset.
  assert (∀ m, k ∈ foldl (λ (m : gset string) key, {[key]} ∪ m) m newKeyset
               ↔ k ∈ m ∨ k ∈ newKeyset) as H.
  { induction newKeyset as [|x l IH]; intros m; simpl; [set_solver|].
    rewrite IH. set_solver. }
  rewrite H. set_solver.
Qed.

End LoopFacts.

(** ** The whole call *)

Module CallFacts.
Import Str StrFacts GoFacts LineFacts LoopFacts.

Lemma readLoop_reader r i st :
  readLoop (S (String.length (unread r))) i r st
  = Some (endOfInput (atEnd r) (processLines i (readLines (unread r)) st)).
Proof.
  destruct r as [input e]. simpl unread. simpl atEnd.
  destruct (splitLines_spec input) as (E & Hls & Htl).
  rewrite E at 1 2. apply readLoop_lines; [done..|]. rewrite <-E. lia.
Qed.

Lemma readLoop_input input i st :
  readLoop (S (String.length input)) i (NewReader input) st
  = Some (processLines i (readLines input) st).
Proof.
  rewrite (readLoop_reader (NewReader input)). simpl.
  by destruct (processLines i (readLines input) st) as [? [?|]].
Qed.

(** Every line read is well formed: all of them are written out as they
    were, then the keys left in the map are appended. *)
Lemma ensure_ok range newKeyset input :
  Forall wellFormed (readLines input) →
  ensureKeysetUpToDate range newKeyset (NewReader input) =
  let added := range (pendingAfter newKeyset (readLines input)) in
  Some (Result (unlines (readLines input) +:+ unlines (canonical <$> added))
               (adding <$> added) None).
Proof.
  intros Hwf. unfold ensureKeysetUpToDate. cbv zeta. simpl unread.
  rewrite readLoop_input, processLines_ok by done.
  rewrite addKeys_spec. simpl. done.
Qed.

(** The first malformed line stops the call. *)
Lemma ensure_err range newKeyset input pre bad post :
  readLines input = pre ++ bad :: post →
  Forall wellFormed pre → ¬ wellFormed bad →
  ensureKeysetUpToDate range newKeyset (NewReader input) =
  Some (Result (unlines pre) [] (Some (MalformedLine (S (length pre))))).
Proof.
  intros E Hpre Hbad. unfold ensureKeysetUpToDate. cbv zeta. simpl unread.
  rewrite readLoop_input, E, processLines_bad by done. done.
Qed.

(** The call returns on every input. *)
Lemma ensure_total range newKeyset input :
  is_Some (ensureKeysetUpToDate range newKeyset (NewReader input)).
Proof.
  destruct (first_malformed (readLines input))
    as [H|(pre & bad & post & E & Hpre & Hbad)].
  - rewrite ensure_ok by done. by eexists.
  - erewrite ensure_err by done. by eexists.
Qed.

(** The call returns [nil] exactly when every line read is well formed. *)
Lemma ensure_nil range newKeyset input res :
  ensureKeysetUpToDate range newKeyset (NewReader input) = Some res →
  err res = None → Forall wellFormed (readLines input).
Proof.
  intros Hres Herr.
  destruct (first_malformed (readLines input))
    as [H|(pre & bad & post & E & Hpre & Hbad)]; [done|].
  erewrite ensure_err in Hres by done. by simplify_eq.
Qed.

(** The bytes after the last line feed play no part. *)
Lemma ensure_fragment range newKeyset ls tl :
  Forall noLF ls → noLF tl →
  ensureKeysetUpToDate range newKeyset (NewReader (unlines ls +:+ tl))
  = ensureKeysetUpToDate range newKeyset (NewReader (unlines ls)).
Proof.
  intros Hls Htl. unfold ensureKeysetUpToDate. simpl unread.
  assert (readLines (unlines ls) = ls) as E.
  { rewrite <-(app_nil_r (unlines ls)). by apply readLines_unlines. }
  by rewrite !readLoop_input, readLines_unlines, E.
Qed.

End CallFacts.

(** ** Canonical lines and the second run *)

Module RunFacts.
Import Str StrFacts GoFacts LineFacts LoopFacts CallFacts.

Lemma count_1_split c s :
  count c s = 1 →
  ∃ a b, s = a +:+ String c b ∧ mem c a = false ∧ mem c b = false.
Proof.
  induction s as [|x s IH]; [done|]. simpl.
  destruct (decide (x = c)) as [->|Hx]; intros H.
  - exists "", s. split_and!; [done..|]. apply count_0_mem. lia.
  - destruct IH as (a & b & -> & Ha & Hb); [lia|].
    exists (String x a), b. split_and!; [done| |done].
    simpl. by rewrite decide_False.
Qed.

Lemma SplitN_canonical a b :
  mem SP a = false → mem SP b = false →
  SplitN (canonical (a +:+ sp +:+ b)) SP 3 = [a; b; keyMagicComment].
Proof.
  intros Ha Hb. unfold canonical, sp. rewrite !app_assoc, !app_cons, !app_nil_l.
  change (SplitN ?s SP 3) with
    (match cut SP s with
     | Some (x, rest) =>
         x :: match cut SP rest with
              | Some (y, rest') => [y; rest']
              | None => [rest]
              end
     | None => [s]
     end).
  by rewrite !cut_app.
Qed.

Lemma keyOf_canonical k : twoTokens k → keyOf (canonical k) = k.
Proof.
  intros [H _]. apply count_1_split in H as (a & b & -> & Ha & Hb).
  unfold keyOf. change (String SP b) with (sp +:+ b).
  by rewrite SplitN_canonical.
Qed.

Lemma isManagedKey_canonical k : twoTokens k → isManagedKey (canonical k) = true.
Proof.
  intros [H _]. apply count_1_split in H as (a & b & -> & Ha & Hb).
  unfold isManagedKey. change (String SP b) with (sp +:+ b).
  rewrite SplitN_canonical by done. by apply bool_decide_eq_true.
Qed.

Lemma wellFormed_canonical k : wellFormed (canonical k).
Proof.
  destruct (wellFormed_dec (canonical k)) as [|H]; [done|]. exfalso.
  assert (length (SplitN (canonical k) SP 3) < 2) as H'
    by (unfold wellFormed in H; lia).
  apply SplitN_3_malformed in H'. unfold canonical in H'.
  rewrite !mem_app in H'. simpl in H'. by rewrite orb_true_r in H'.
Qed.

Lemma noLF_canonical k : twoTokens k → noLF (canonical k).
Proof.
  intros [_ H]. unfold noLF, canonical. rewrite !mem_app, H. done.
Qed.

(** A line with three parts is its key, a space and its third part. *)
Lemma line_of_parts line a b c :
  SplitN line SP 3 = [a; b; c] → line = keyOf line +:+ sp +:+ c.
Proof.
  intros H. unfold keyOf. rewrite H. unfold keyOfParts. simpl.
  rewrite !app_assoc. by apply SplitN_3.
Qed.

Lemma readLines_unlines_nil ls : Forall noLF ls → readLines (unlines ls) = ls.
Proof.
  intros. rewrite <-(app_nil_r (unlines ls)). by apply readLines_unlines.
Qed.

Lemma noLF_readLines input : Forall noLF (readLines input).
Proof. apply splitLines_spec. Qed.

Lemma elem_of_range range m k : RangeOrder range → k ∈ range m ↔ k ∈ m.
Proof. intros H. by rewrite (H m), elem_of_elements. Qed.

Lemma range_empty range : RangeOrder range → range ∅ = [].
Proof.
  intros H. apply Permutation_nil_r. by rewrite (H ∅), elements_empty.
Qed.

Lemma NoDup_range range m : RangeOrder range → NoDup (range m).
Proof. intros H. rewrite (H m). apply NoDup_elements. Qed.

Lemma elem_of_keysOf k ls : k ∈ keysOf ls ↔ ∃ l, l ∈ ls ∧ keyOf l = k.
Proof.
  unfold keysOf. rewrite elem_of_list_to_set, list_elem_of_fmap. naive_solver.
Qed.

Lemma elem_of_pendingAfter k newKeyset ls :
  k ∈ pendingAfter newKeyset ls ↔ k ∈ newKeyset ∧ ∀ l, l ∈ ls → keyOf l ≠ k.
Proof.
  unfold pendingAfter.
  rewrite elem_of_difference, elem_of_hashKeyset, elem_of_keysOf. naive_solver.
Qed.

(** Once every key of the key set is the key of a line, nothing is left
    to add. *)
Lemma pendingAfter_covered range newKeyset ls :
  RangeOrder range → Forall twoTokens newKeyset →
  pendingAfter newKeyset
    (ls ++ (canonical <$> range (pendingAfter newKeyset ls))) = ∅.
Proof.
  intros Hr Htok. apply set_eq. intros k. split; [|set_solver].
  rewrite elem_of_pendingAfter. intros [Hk Hne]. exfalso.
  destruct (decide (k ∈ keysOf ls)) as [Hin|Hnin].
  - apply elem_of_keysOf in Hin as (l & Hl & E).
    apply (Hne l); [|done]. apply elem_of_app. by left.
  - apply (Hne (canonical k)).
    + apply elem_of_app. right. apply list_elem_of_fmap. exists k. split; [done|].
      apply (elem_of_range _ _ _ Hr), elem_of_pendingAfter. split; [done|].
      intros l Hl E. apply Hnin, elem_of_keysOf. eauto.
    + apply keyOf_canonical. by eapply Forall_forall in Htok.
Qed.

(** A successful run ends in a file on which a second run changes
    nothing. *)
Lemma second_run range range' newKeyset ls :
  RangeOrder range → RangeOrder range' →
  Forall twoTokens newKeyset → Forall noLF ls → Forall wellFormed ls →
  ensureKeysetUpToDate range' newKeyset
    (NewReader (unlines ls +:+ unlines (canonical <$> range (pendingAfter newKeyset ls))))
  = Some (Result
      (unlines ls +:+ unlines (canonical <$> range (pendingAfter newKeyset ls)))
      [] None).
Proof.
  intros Hr Hr' Htok Hnl Hwf.
  set (added := range (pendingAfter newKeyset ls)).
  assert (Forall twoTokens added) as Hadded.
  { apply Forall_forall. intros k Hk.
    apply (elem_of_range _ _ _ Hr), elem_of_pendingAfter in Hk as [Hk _].
    by eapply Forall_forall in Htok. }
  assert (readLines (unlines ls +:+ unlines (canonical <$> added))
          = ls ++ (canonical <$> added)) as E.
  { rewrite readLines_app by done. f_equal. apply readLines_unlines_nil.
    apply Forall_fmap. eapply Forall_impl; [done|]. apply noLF_canonical. }
  rewrite ensure_ok; rewrite E.
  - cbv zeta. subst added. rewrite pendingAfter_covered by done.
    rewrite (range_empty _ Hr'). simpl.
    by rewrite unlines_app, unlines_nil, app_nil_r.
  - apply Forall_app. split; [done|]. apply Forall_fmap, Forall_forall.
    intros k _. apply wellFormed_canonical.
Qed.

End RunFacts.


(** ** Fetching the keys *)

Module FetchFacts.
Import Str StrFacts GoFacts LineFacts LoopFacts CallFacts.

Lemma readKeys_S fuel buf publicKeys :
  readKeys (S fuel) buf publicKeys =
  let '(publicKey, buf', err) := ReadString LF buf in
  match err with
  | Some e =>
      if decide (e = EOF) then Some (inr publicKeys)
      else Some (inl (Wrap e "failed to read response body"))
  | None => readKeys fuel buf' (publicKeys ++ [init publicKey])
  end.
Proof. reflexivity. Qed.

Lemma readKeys_lines ls tl e fuel publicKeys :
  Forall noLF ls → noLF tl →
  String.length (unlines ls +:+ tl) < fuel →
  readKeys fuel (mkReader (unlines ls +:+ tl) e) publicKeys
  = Some (if decide (e = EOF) then inr (publicKeys ++ ls)
          else inl (Wrap e "failed to read response body")).
Proof.
  intros Hls Htl. revert fuel publicKeys.
  induction Hls as [|l ls Hl _ IH]; intros fuel publicKeys Hfuel.
  - destruct fuel as [|fuel]; [lia|].
    rewrite readKeys_S, unlines_nil, app_nil_l, ReadString_end by done.
    cbv beta iota zeta. rewrite (right_id_L [] (++)).
    by destruct (decide (e = EOF)).
  - destruct fuel as [|fuel]; [lia|].
    rewrite unlines_cons, !app_assoc in Hfuel |- *.
    rewrite !length_app in Hfuel. simpl in Hfuel.
    rewrite readKeys_S, ReadString_line by done. cbv beta iota zeta.
    rewrite init_nl, IH by (rewrite length_app; lia).
    by rewrite <-(assoc_L (++)).
Qed.

Lemma readKeys_reader buf :
  readKeys (S (String.length (unread buf))) buf []
  = Some (if decide (atEnd buf = EOF) then inr (readLines (unread buf))
          else inl (Wrap (atEnd buf) "failed to read response body")).
Proof.
  destruct buf as [body e]. simpl unread. simpl atEnd.
  destruct (splitLines_spec body) as (E & Hls & Htl).
  rewrite E at 1 2. rewrite readKeys_lines; [done..|]. rewrite <-E. lia.
Qed.

Lemma getSSHKeys_total w : is_Some (getSSHKeys w).
Proof.
  unfold getSSHKeys. destruct (newRequestErr w); [by eexists|].
  destruct (httpDo w) as [|resp]; [by eexists|].
  destruct (_ || _); [by eexists|]. rewrite readKeys_reader. by eexists.
Qed.

(** The keys fetched are the lines of the body. *)
Lemma getSSHKeys_inr w keys :
  getSSHKeys w = Some (inr keys) →
  ∃ resp, httpDo w = inr resp ∧ keys = readLines (unread (Body resp)).
Proof.
  unfold getSSHKeys. destruct (newRequestErr w); [done|].
  destruct (httpDo w) as [|resp]; [done|].
  destruct (_ || _); [done|]. rewrite readKeys_reader.
  destruct (decide (atEnd (Body resp) = EOF)); [|done].
  intros [= <-]. by exists resp.
Qed.

Lemma getSSHKeys_calm keys :
  Forall noLF keys → getSSHKeys (calm keys) = Some (inr keys).
Proof.
  intros H. unfold getSSHKeys, calm. simpl newRequestErr. simpl httpDo.
  cbv iota. simpl StatusCode. simpl Body. rewrite readKeys_reader.
  simpl atEnd. simpl unread. rewrite decide_True by done.
  rewrite <-(app_nil_r (unlines keys)). by rewrite readLines_unlines.
Qed.

(** Any reader: the lines before its end are processed, then its last
    error decides. *)
Lemma ensure_reader range newKeyset r :
  ensureKeysetUpToDate range newKeyset r =
  match endOfInput (atEnd r)
          (processLines 1 (readLines (unread r))
             (State (hashKeyset newKeyset) "" [])) with
  | (st, Some e) => Some (Result (output st) (logged st) (Some e))
  | (st, None) =>
      Some (Result (output (addKeys (range (newKeysetHashed st)) st))
                   (logged (addKeys (range (newKeysetHashed st)) st)) None)
  end.
Proof.
  unfold ensureKeysetUpToDate. cbv zeta. rewrite readLoop_reader.
  by destruct (endOfInput _ _) as [st [e|]].
Qed.

Lemma ensure_reader_total range newKeyset r :
  is_Some (ensureKeysetUpToDate range newKeyset r).
Proof.
  rewrite ensure_reader. destruct (endOfInput _ _) as [st [e|]]; by eexists.
Qed.

Lemma sync_total range w file : is_Some (syncGithubKeys range w file).
Proof.
  unfold syncGithubKeys.
  destruct (getSSHKeys_total w) as [[e|keys] ->]; simpl; [by eexists|].
  destruct (openErr w); [by eexists|].
  destruct (ensure_reader_total range keys (fileReader w file)) as [res ->].
  simpl. destruct (err res); [by eexists|].
  destruct (seekErr w); [by eexists|].
  destruct (copyErr w) as [[??]|]; [by eexists|].
  destruct (truncateErr w); by eexists.
Qed.

End FetchFacts.

(** * The claims

    A line of the current file is a line the reading loop obtains from
    it, [readLines]; its parts are those of [SplitN] on single spaces.
    The order in which the map is ranged over is any [RangeOrder]. *)

Section Claims.
Import Str StrFacts GoFacts LineFacts LoopFacts CallFacts RunFacts FetchFacts.

Lemma stateAfter_ok newKeyset ls :
  Forall wellFormed ls →
  stateAfter newKeyset ls = State (pendingAfter newKeyset ls) (unlines ls) [].
Proof. intros H. unfold stateAfter. by rewrite processLines_ok. Qed.

(** C1.  A managed line whose key is still in the pending map is meant to
    be written in canonical form where it stands, its key leaving the
    map.  A last line without a line terminator is read together with
    [io.EOF], on which the loop stops before it looks at the line: in the
    file of the line ["ssh-rsa X y"] and the unterminated managed line
    ["ssh-rsa AAA synced from github"], the key of that line is in the map
    when the loop ends, is logged as added, and its line is written among
    the added lines, after that of ["ssh-rsa BBB"] when the map is ranged
    over in that order. *)
Theorem C1_unterminated_managed_line_readded :
  lastFragment (unlines ["ssh-rsa X y"] +:+ "ssh-rsa AAA synced from github")
    = "ssh-rsa AAA synced from github"
  ∧ SplitN "ssh-rsa AAA synced from github" SP 3
    = ["ssh-rsa"; "AAA"; keyMagicComment]
  ∧ keyOf "ssh-rsa AAA synced from github"
    ∈ newKeysetHashed (stateAfter ["ssh-rsa AAA"; "ssh-rsa BBB"] ["ssh-rsa X y"])
  ∧ ensureKeysetUpToDate elements ["ssh-rsa AAA"; "ssh-rsa BBB"]
      (NewReader (unlines ["ssh-rsa X y"] +:+ "ssh-rsa AAA synced from github"))
    = Some (Result
        (unlines ["ssh-rsa X y"; "ssh-rsa AAA synced from github";
                  "ssh-rsa BBB synced from github"])
        ["adding key: ssh-rsa AAA"; "adding key: ssh-rsa BBB"] None)
  ∧ RangeOrder (λ m, reverse (elements m))
  ∧ ensureKeysetUpToDate (λ m, reverse (elements m)) ["ssh-rsa AAA"; "ssh-rsa BBB"]
      (NewReader (unlines ["ssh-rsa X y"] +:+ "ssh-rsa AAA synced from github"))
    = Some (Result
        (unlines ["ssh-rsa X y"; "ssh-rsa BBB synced from github";
                  "ssh-rsa AAA synced from github"])
        ["adding key: ssh-rsa BBB"; "adding key: ssh-rsa AAA"] None).
Proof.
  split_and!; [by vm_compute..| |by vm_compute].
  intros m. apply reverse_Permutation.
Qed.

(** C2.  A managed line whose key is no longer in the key set is meant to
    be left out.  No line has more than three parts, so the test of line
    145 never holds: the stale line ["ssh-rsa OLD synced from github"] is
    written out again, next to the key that was added. *)
Theorem C2_stale_managed_line_kept :
  isManagedKey "ssh-rsa OLD synced from github" = true
  ∧ (keyOf "ssh-rsa OLD synced from github" ∉ hashKeyset ["ssh-rsa NEW"])
  ∧ length (SplitN "ssh-rsa OLD synced from github" SP 3) = 3
  ∧ ensureKeysetUpToDate elements ["ssh-rsa NEW"]
      (NewReader (unlines ["ssh-rsa OLD synced from github"]))
    = Some (Result
        (unlines ["ssh-rsa OLD synced from github";
                  "ssh-rsa NEW synced from github"])
        ["adding key: ssh-rsa NEW"] None).
Proof.
  split_and!; [done| |done|by vm_compute].
  rewrite elem_of_hashKeyset. vm_compute. by intros ?%list_elem_of_singleton.
Qed.

Lemma elem_of_managedIdentities k file :
  k ∈ managedIdentities file
  ↔ ∃ l, l ∈ readLines file ∧ isManagedKey l = true ∧ keyOf l = k.
Proof.
  unfold managedIdentities. rewrite elem_of_list_to_set, list_elem_of_fmap. split.
  - intros (l & -> & [Hm Hl]%list_elem_of_filter). eauto.
  - intros (l & Hl & Hm & <-). exists l. split; [done|].
    by apply list_elem_of_filter.
Qed.

(** C3, as stated, fails, in two ways.  The key ["ssh-rsa AAA"] of the key
    set is the key of an unmanaged line of the file, so it is taken off
    the map and never added: the output has no managed line, while the key
    set has one identity.  And a raw key with a third token is not the
    key of the line written for it: that line is not a managed line, and
    a second call adds the key once more. *)
Lemma C3_counterexample :
  (ensureKeysetUpToDate elements ["ssh-rsa AAA"]
     (NewReader (unlines ["ssh-rsa AAA me@host"]))
   = Some (Result (unlines ["ssh-rsa AAA me@host"]) [] None)
   ∧ managedIdentities (unlines ["ssh-rsa AAA me@host"]) ≠ list_to_set ["ssh-rsa AAA"])
  ∧ (ensureKeysetUpToDate elements ["ssh-rsa AAA laptop"] (NewReader "")
     = Some (Result (unlines ["ssh-rsa AAA laptop synced from github"])
               ["adding key: ssh-rsa AAA laptop"] None)
     ∧ managedIdentities (unlines ["ssh-rsa AAA laptop synced from github"])
       ≠ list_to_set ["ssh-rsa AAA laptop"]
     ∧ ensureKeysetUpToDate elements ["ssh-rsa AAA laptop"]
         (NewReader (unlines ["ssh-rsa AAA laptop synced from github"]))
       = Some (Result
           (unlines ["ssh-rsa AAA laptop synced from github";
                     "ssh-rsa AAA laptop synced from github"])
           ["adding key: ssh-rsa AAA laptop"] None)
     ∧ unlines ["ssh-rsa AAA laptop synced from github";
                "ssh-rsa AAA laptop synced from github"]
       ≠ unlines ["ssh-rsa AAA laptop synced from github"]).
Proof.
  split_and!; [by vm_compute| |by vm_compute| |by vm_compute..].
  - intros H.
    assert ("ssh-rsa AAA" ∈ managedIdentities (unlines ["ssh-rsa AAA me@host"])) as Hin
      by (rewrite H; set_solver).
    vm_compute in Hin. discriminate Hin.
  - intros H.
    assert ("ssh-rsa AAA laptop"
            ∈ managedIdentities (unlines ["ssh-rsa AAA laptop synced from github"]))
      as Hin by (rewrite H; set_solver).
    vm_compute in Hin. discriminate Hin.
Qed.

(** C3, amended.  For a key set whose keys are two tokens each (one space,
    no line feed) and a file on which the call succeeds: every key of the
    key set is a managed identity of the output, unless it is the key of
    an unmanaged line of the file, which is then a line of the output;
    every managed identity of the output is a key of the key set or the
    identity of a managed line of the file, so the call brings in no
    managed identity from outside the key set; and a second call on that
    output with the same key set writes the very same bytes. *)
Theorem C3_convergence range range' newKeyset input res :
  RangeOrder range → RangeOrder range' →
  Forall twoTokens newKeyset →
  ensureKeysetUpToDate range newKeyset (NewReader input) = Some res →
  err res = None →
  (∀ k, k ∈ newKeyset →
        k ∈ managedIdentities (written res)
        ∨ ∃ l, l ∈ readLines input ∧ isManagedKey l = false ∧ keyOf l = k
               ∧ l ∈ readLines (written res))
  ∧ (∀ k, k ∈ managedIdentities (written res) →
          k ∈ newKeyset ∨ k ∈ managedIdentities input)
  ∧ ensureKeysetUpToDate range' newKeyset (NewReader (written res))
    = Some (Result (written res) [] None).
Proof.
  intros Hr Hr' Htok Hres Herr.
  pose proof (ensure_nil _ _ _ _ Hres Herr) as Hwf.
  rewrite ensure_ok in Hres by done. cbv zeta in Hres. simplify_eq. simpl.
  set (added := range (pendingAfter newKeyset (readLines input))).
  assert (∀ k, k ∈ added → k ∈ newKeyset ∧ twoTokens k) as Hadded.
  { intros k Hk.
    apply (elem_of_range _ _ _ Hr), elem_of_pendingAfter in Hk as [Hk _].
    split; [done|]. by eapply Forall_forall in Htok. }
  assert (readLines (unlines (readLines input) +:+ unlines (canonical <$> added))
          = readLines input ++ (canonical <$> added)) as E.
  { rewrite readLines_app by apply noLF_readLines. f_equal.
    apply readLines_unlines_nil, Forall_fmap, Forall_forall.
    intros k Hk. apply noLF_canonical. by apply Hadded. }
  split_and!.
  - intros k Hk. destruct (decide (k ∈ keysOf (readLines input))) as [Hin|Hnin].
    + apply elem_of_keysOf in Hin as (l & Hl & El).
      assert (l ∈ readLines input ++ (canonical <$> added)) as Hout
        by (apply elem_of_app; by left).
      destruct (isManagedKey l) eqn:Hm.
      * left. apply elem_of_managedIdentities. exists l. by rewrite E.
      * right. exists l. by rewrite E.
    + left. apply elem_of_managedIdentities. exists (canonical k).
      assert (k ∈ added) as Hk'.
      { apply (elem_of_range _ _ _ Hr), elem_of_pendingAfter. split; [done|].
        intros l Hl El. apply Hnin, elem_of_keysOf. eauto. }
      rewrite E. split_and!.
      * apply elem_of_app. right. apply list_elem_of_fmap. by exists k.
      * by apply isManagedKey_canonical, Hadded.
      * by apply keyOf_canonical, Hadded.
  - intros k (l & Hl & Hm & <-)%elem_of_managedIdentities.
    rewrite E in Hl. apply elem_of_app in Hl as [Hl|Hl].
    + right. apply elem_of_managedIdentities. by exists l.
    + apply list_elem_of_fmap in Hl as (k & -> & Hk). left.
      destruct (Hadded k Hk) as [Hk1 Hk2]. by rewrite keyOf_canonical.
  - apply second_run; [done..|apply noLF_readLines|done].
Qed.

(** C3 on a file in which the key ["ssh-rsa AAA"] is that of an unmanaged
    line and ["ssh-rsa CCC"] is new. *)
Lemma C3_witness :
  ensureKeysetUpToDate elements ["ssh-rsa AAA"; "ssh-rsa CCC"]
    (NewReader (unlines ["ssh-rsa AAA me@host"; "ssh-ed25519 BBB synced from github"]))
  = Some (Result
      (unlines ["ssh-rsa AAA me@host"; "ssh-ed25519 BBB synced from github";
                "ssh-rsa CCC synced from github"])
      ["adding key: ssh-rsa CCC"] None)
  ∧ ensureKeysetUpToDate elements ["ssh-rsa AAA"; "ssh-rsa CCC"]
      (NewReader (unlines ["ssh-rsa AAA me@host"; "ssh-ed25519 BBB synced from github";
                "ssh-rsa CCC synced from github"]))
    = Some (Result
        (unlines ["ssh-rsa AAA me@host"; "ssh-ed25519 BBB synced from github";
                  "ssh-rsa CCC synced from github"])
        [] None).
Proof.
  split; [vm_compute; reflexivity|].
  apply (C3_convergence elements elements ["ssh-rsa AAA"; "ssh-rsa CCC"]
           (unlines ["ssh-rsa AAA me@host"; "ssh-ed25519 BBB synced from github"])
           (Result
              (unlines ["ssh-rsa AAA me@host"; "ssh-ed25519 BBB synced from github";
                        "ssh-rsa CCC synced from github"])
              ["adding key: ssh-rsa CCC"] None)).
  - intros m. reflexivity.
  - intros m. reflexivity.
  - repeat constructor.
  - vm_compute. reflexivity.
  - reflexivity.
Defined.




(** C5.  An unmanaged line is meant to reach the output as it is.  The
    last line of a file that does not end in a line feed is read together
    with [io.EOF], on which the loop stops before it looks at the line:
    the unmanaged line ["ssh-ed25519 BBB me@host"] is in neither the bytes
    written nor the file after the cycle. *)
Theorem C5_unterminated_unmanaged_line_lost :
  isManagedKey "ssh-ed25519 BBB me@host" = false
  ∧ ensureKeysetUpToDate elements ["ssh-rsa CCC"]
      (NewReader (unlines ["ssh-rsa AAA a@b"] +:+ "ssh-ed25519 BBB me@host"))
    = Some (Result
        (unlines ["ssh-rsa AAA a@b"; "ssh-rsa CCC synced from github"])
        ["adding key: ssh-rsa CCC"] None)
  ∧ syncGithubKeys elements (calm ["ssh-rsa CCC"])
      (unlines ["ssh-rsa AAA a@b"] +:+ "ssh-ed25519 BBB me@host")
    = Some (unlines ["ssh-rsa AAA a@b"; "ssh-rsa CCC synced from github"], None).
Proof. split_and!; by vm_compute. Qed.

(** C6.  A line that cannot be split into at least two parts is meant to
    stop the call with the malformed-line error of its number.  A last
    line without a line terminator is read together with [io.EOF], on
    which the loop stops before it splits the line: on the file
    ["garbage"] the call returns no error, and the cycle overwrites the
    file with the key that was fetched. *)
Theorem C6_unterminated_malformed_line_accepted :
  lastFragment "garbage" = "garbage"
  ∧ length (SplitN "garbage" SP 3) = 1
  ∧ ensureKeysetUpToDate elements ["ssh-rsa CCC"] (NewReader "garbage")
    = Some (Result (unlines ["ssh-rsa CCC synced from github"])
              ["adding key: ssh-rsa CCC"] None)
  ∧ syncGithubKeys elements (calm ["ssh-rsa CCC"]) "garbage"
    = Some (unlines ["ssh-rsa CCC synced from github"], None)
  ∧ ensureKeysetUpToDate elements ["ssh-rsa CCC"] (NewReader (unlines ["garbage"]))
    = Some (Result "" [] (Some (MalformedLine 1))).
Proof. split_and!; by vm_compute. Qed.

(** C7.  When [ensureKeysetUpToDate] returns an error, be it that of a
    malformed line or of a failing read, the cycle returns before it
    seeks, copies or truncates: whatever the system calls would have
    answered, the file holds what it held, and the error returned is the
    wrapped error of the reconciliation (or that of opening the file). *)
Theorem C7_no_write_on_failure range w file keys res e :
  getSSHKeys w = Some (inr keys) →
  ensureKeysetUpToDate range keys (fileReader w file) = Some res →
  err res = Some e →
  syncGithubKeys range w file
  = Some (file,
          Some (match openErr w with
                | Some eo => Wrap eo "could not open authorized keys file"
                | None => Wrap e "could not update authorized keys file"
                end)).
Proof.
  intros Hkeys Hres Herr. unfold syncGithubKeys. rewrite Hkeys. simpl.
  destruct (openErr w); [done|]. rewrite Hres. simpl. by rewrite Herr.
Qed.

(** C7 on a file with a malformed second line, in a world whose [io.Copy]
    would have failed after three bytes. *)
Lemma C7_witness :
  ensureKeysetUpToDate elements ["ssh-rsa CCC"]
    (NewReader (unlines ["ssh-rsa AAA me"; "garbage"]))
    = Some (Result (unlines ["ssh-rsa AAA me"]) [] (Some (MalformedLine 2)))
  ∧ syncGithubKeys elements
      (World None (inr (mkResponse 200 (NewReader (unlines ["ssh-rsa CCC"]))))
             None None None (Some (3, Failure "disk full")) None)
      (unlines ["ssh-rsa AAA me"; "garbage"])
    = Some (unlines ["ssh-rsa AAA me"; "garbage"],
            Some (Wrap (MalformedLine 2) "could not update authorized keys file")).
Proof.
  split; [vm_compute; reflexivity|].
  apply (C7_no_write_on_failure elements
           (World None (inr (mkResponse 200 (NewReader (unlines ["ssh-rsa CCC"]))))
                  None None None (Some (3, Failure "disk full")) None)
           (unlines ["ssh-rsa AAA me"; "garbage"]) ["ssh-rsa CCC"]
           (Result (unlines ["ssh-rsa AAA me"]) [] (Some (MalformedLine 2)))
           (MalformedLine 2)).
  - vm_compute. reflexivity.
  - vm_compute. reflexivity.
  - reflexivity.
Defined.

(** C8.  A last line without a line terminator is meant to be processed
    like any other line.  The bytes after the last line feed are read
    together with [io.EOF] and dropped: a call on any input does what it
    does on the input cut after its last line feed, so the unterminated
    line ["ssh-ed25519 BBB me@host"] is not written, and its key does not
    leave the map, whereas the same line with its terminator is written
    and its key is not added. *)
Theorem C8_unterminated_line_ignored :
  (∀ range newKeyset input,
     ensureKeysetUpToDate range newKeyset (NewReader input)
     = ensureKeysetUpToDate range newKeyset (NewReader (unlines (readLines input))))
  ∧ lastFragment "ssh-ed25519 BBB me@host" = "ssh-ed25519 BBB me@host"
  ∧ ensureKeysetUpToDate elements ["ssh-ed25519 BBB"] (NewReader "ssh-ed25519 BBB me@host")
    = Some (Result (unlines ["ssh-ed25519 BBB synced from github"])
              ["adding key: ssh-ed25519 BBB"] None)
  ∧ ensureKeysetUpToDate elements ["ssh-ed25519 BBB"]
      (NewReader (unlines ["ssh-ed25519 BBB me@host"]))
    = Some (Result (unlines ["ssh-ed25519 BBB me@host"]) [] None).
Proof.
  split_and!; [|by vm_compute..].
  intros range newKeyset input.
  destruct (splitLines_spec input) as (E & Hls & Htl).
  rewrite E at 1. by apply ensure_fragment.
Qed.




(** C10.  The key of every line of the current file is meant to leave
    the pending map when the line is processed, and so never to be added
    at the end.  A last line without a line terminator is read together
    with [io.EOF], on which the loop stops before [delete] is reached: the
    key of the unterminated line ["ssh-ed25519 BBB me@host"] stays in the
    map and is added, whereas for the same line with its terminator it is
    not. *)
Theorem C10_unterminated_line_key_added :
  lastFragment "ssh-ed25519 BBB me@host" = "ssh-ed25519 BBB me@host"
  ∧ keyOf "ssh-ed25519 BBB me@host" = "ssh-ed25519 BBB"
  ∧ ensureKeysetUpToDate elements ["ssh-ed25519 BBB"]
      (NewReader "ssh-ed25519 BBB me@host")
    = Some (Result (unlines ["ssh-ed25519 BBB synced from github"])
              ["adding key: ssh-ed25519 BBB"] None)
  ∧ ensureKeysetUpToDate elements ["ssh-ed25519 BBB"]
      (NewReader (unlines ["ssh-ed25519 BBB me@host"]))
    = Some (Result (unlines ["ssh-ed25519 BBB me@host"]) [] None).
Proof. split_and!; by vm_compute. Qed.

End Claims.

(** ** Files that need no work *)

Module StableFacts.
Import Str StrFacts GoFacts LineFacts LoopFacts CallFacts RunFacts FetchFacts.

Lemma upto_from k s : upto k s +:+ from k s = s.
Proof.
  revert s. induction k as [|k IH]; intros [|a s]; try done.
  simpl. by rewrite app_cons, IH.
Qed.

Lemma upto_from_length k s : upto k s +:+ from (String.length (upto k s)) s = s.
Proof.
  revert s. induction k as [|k IH]; intros [|a s]; try done.
  simpl. by rewrite app_cons, IH.
Qed.

Lemma from_length s : from (String.length s) s = "".
Proof. by rewrite <-(app_nil_r s) at 2; rewrite from_app. Qed.

Lemma writeAt0_upto k s : writeAt0 (upto k s) s = s.
Proof. apply upto_from_length. Qed.

Lemma writeAt0_same s : writeAt0 s s = s.
Proof. unfold writeAt0. by rewrite from_length, app_nil_r. Qed.

Lemma readLines_prefix a b : readLines a `prefix_of` readLines (a +:+ b).
Proof.
  destruct (splitLines_spec a) as (E & Hls & _).
  rewrite E at 2. rewrite app_assoc, readLines_app by done. by eexists.
Qed.

Lemma unlines_readLines s : lastFragment s = "" → unlines (readLines s) = s.
Proof.
  intros H. destruct (splitLines_spec s) as (E & _ & _).
  rewrite H, app_nil_r in E. done.
Qed.

Lemma unlines_eq_nil ls : unlines ls = "" → ls = [].
Proof.
  destruct ls as [|l ls]; [done|]. rewrite unlines_cons.
  destruct l; [done|]. by rewrite app_cons.
Qed.

Lemma lastFragment_app_unlines ls ls' :
  Forall noLF ls → Forall noLF ls' →
  lastFragment (unlines ls +:+ unlines ls') = "".
Proof.
  intros H H'. rewrite <-unlines_app. apply lastFragment_unlines.
  by apply Forall_app.
Qed.

(** The key of a line that has two parts is two tokens without a space,
    joined by one space. *)
Lemma keyOf_shape line :
  wellFormed line →
  ∃ a b, mem SP a = false ∧ mem SP b = false ∧ keyOf line = a +:+ sp +:+ b
         ∧ (line = keyOf line ∨ ∃ c, line = keyOf line +:+ sp +:+ c).
Proof.
  unfold wellFormed, keyOf. simpl.
  destruct (cut SP line) as [[a r]|] eqn:E1; [|simpl; lia].
  destruct (cut_Some _ _ _ _ E1) as [-> Ha].
  destruct (cut SP r) as [[b r']|] eqn:E2; intros _.
  - destruct (cut_Some _ _ _ _ E2) as [-> Hb]. exists a, b.
    split_and!; [done..|]. right. exists r'. unfold keyOfParts. simpl.
    by rewrite !app_assoc.
  - apply cut_None in E2. exists a, r. split_and!; [done..|]. by left.
Qed.

Lemma keyOf_count line : wellFormed line → count SP (keyOf line) = 1.
Proof.
  intros (a & b & Ha & Hb & -> & _)%keyOf_shape.
  rewrite !count_app. apply count_0_mem in Ha, Hb. rewrite Ha, Hb. done.
Qed.

Lemma hashKeyset_ext R1 R2 :
  (∀ k, k ∈ R1 ↔ k ∈ R2) → hashKeyset R1 = hashKeyset R2.
Proof.
  intros H. apply set_eq. intros k. by rewrite !elem_of_hashKeyset.
Qed.

Lemma pendingAfter_empty newKeyset ls :
  pendingAfter newKeyset ls = ∅
  ↔ ∀ k, k ∈ newKeyset → ∃ l, l ∈ ls ∧ keyOf l = k.
Proof.
  split.
  - intros H k Hk. destruct (decide (k ∈ keysOf ls)) as [Hin|Hnin].
    + by apply elem_of_keysOf.
    + exfalso. apply (not_elem_of_empty (C:=gset string) k). rewrite <-H.
      apply elem_of_pendingAfter. split; [done|]. intros l Hl E.
      apply Hnin, elem_of_keysOf. eauto.
  - intros H. apply set_eq. intros k. split; [|set_solver].
    rewrite elem_of_pendingAfter. intros [Hk Hne].
    destruct (H k Hk) as (l & Hl & E). by destruct (Hne l Hl).
Qed.

Lemma range_nil range m : RangeOrder range → range m = [] → m = ∅.
Proof.
  intros Hr H. apply leibniz_equiv, elements_empty_inv.
  apply Permutation_nil_r. by rewrite <-(Hr m), H.
Qed.

(** On a file that needs no work the call writes the file back. *)
Lemma ensure_converged range keys keys' file :
  RangeOrder range → converged keys file →
  (∀ k, k ∈ keys' → k ∈ keys) →
  ensureKeysetUpToDate range keys' (NewReader file) = Some (Result file [] None).
Proof.
  intros Hr (Hfrag & Hwf & Hcov) Hsub. rewrite ensure_ok by done. cbv zeta.
  assert (pendingAfter keys' (readLines file) = ∅) as ->
    by (apply pendingAfter_empty; auto).
  rewrite (range_empty _ Hr). simpl.
  by rewrite unlines_nil, app_nil_r, unlines_readLines.
Qed.

(** A read that fails before the end of a well-formed file makes the call
    fail. *)
Lemma ensure_short_read range keys file n e :
  e ≠ EOF → Forall wellFormed (readLines file) →
  ∃ res e', ensureKeysetUpToDate range keys (mkReader (upto n file) e) = Some res
            ∧ err res = Some e'.
Proof.
  intros He Hwf. rewrite ensure_reader. simpl atEnd. simpl unread.
  assert (Forall wellFormed (readLines (upto n file))) as Hwf'.
  { destruct (readLines_prefix (upto n file) (from n file)) as [k Hk].
    rewrite upto_from in Hk. rewrite Hk in Hwf. by apply Forall_app in Hwf as []. }
  rewrite processLines_ok by done. simpl. rewrite decide_False by done.
  by eexists _, _.
Qed.

(** A cycle on a file that needs no work leaves the file as it is. *)
Lemma sync_converged range w keys file file' e :
  RangeOrder range → converged keys file →
  fetchesWithin keys w → wholeRead w →
  syncGithubKeys range w file = Some (file', e) → file' = file.
Proof.
  intros Hr Hconv Hfetch Hread. unfold syncGithubKeys.
  destruct (getSSHKeys w) as [[e0|keys']|] eqn:Hk; simpl; [by intros [= <- <-]| |done].
  destruct (openErr w); [by intros [= <- <-]|].
  unfold fileReader, wholeRead in *.
  destruct (readErr w) as [[n e1]|].
  - destruct (ensure_short_read range keys' file n e1) as (res & e' & -> & Herr);
      [done|apply Hconv|].
    simpl. rewrite Herr. by intros [= <- <-].
  - rewrite (ensure_converged range keys keys') by eauto. simpl.
    destruct (seekErr w); [by intros [= <- <-]|].
    destruct (copyErr w) as [[k e2]|]; [intros [= <- <-]; apply writeAt0_upto|].
    rewrite writeAt0_same.
    destruct (truncateErr w); intros [= <- <-]; [done|apply upto_all].
Qed.

(** A call either fails, whatever the order of the map, or succeeds with
    the lines it read followed by the keys left in the map. *)
Lemma ensure_cases newKeyset r :
  (∃ e body, ∀ range,
     ensureKeysetUpToDate range newKeyset r = Some (Result body [] (Some e)))
  ∨ (∃ body pending,
       (∀ k, k ∈ pending → k ∈ newKeyset)
       ∧ ∀ range,
           ensureKeysetUpToDate range newKeyset r
           = Some (Result (body +:+ unlines (canonical <$> range pending))
                          (adding <$> range pending) None)).
Proof.
  destruct (first_malformed (readLines (unread r)))
    as [Hwf|(pre & bad & post & E & Hpre & Hbad)].
  - destruct (decide (atEnd r = EOF)) as [He|He].
    + right. exists (unlines (readLines (unread r))),
        (pendingAfter newKeyset (readLines (unread r))).
      split; [by intros k [? _]%elem_of_pendingAfter|].
      intros range. rewrite ensure_reader, processLines_ok by done. simpl.
      rewrite decide_True by done. by rewrite addKeys_spec.
    + left. eexists _, _. intros range.
      rewrite ensure_reader, processLines_ok by done. simpl.
      by rewrite decide_False.
  - left. eexists _, _. intros range.
    rewrite ensure_reader, E, processLines_bad by done. done.
Qed.

(** A call that returns [nil] has read well-formed lines up to a plain end
    of input, and has written them followed by the keys left in the map. *)
Lemma ensure_nil_reader range newKeyset r res :
  ensureKeysetUpToDate range newKeyset r = Some res → err res = None →
  atEnd r = EOF
  ∧ Forall wellFormed (readLines (unread r))
  ∧ res = Result
      (unlines (readLines (unread r)) +:+
       unlines (canonical <$> range (pendingAfter newKeyset (readLines (unread r)))))
      (adding <$> range (pendingAfter newKeyset (readLines (unread r)))) None.
Proof.
  rewrite ensure_reader.
  destruct (first_malformed (readLines (unread r)))
    as [Hwf|(pre & bad & post & E & Hpre & Hbad)].
  - rewrite processLines_ok by done. simpl.
    destruct (decide (atEnd r = EOF)); intros [= <-]; [|done].
    intros _. by rewrite addKeys_spec.
  - rewrite E, processLines_bad by done. by intros [= <-].
Qed.

Lemma noLF_canonical_key k : noLF k → noLF (canonical k).
Proof. unfold noLF, canonical. intros H. by rewrite !mem_app, H. Qed.

Lemma readLines_output ls added :
  Forall noLF ls → Forall noLF added →
  readLines (unlines ls +:+ unlines (canonical <$> added))
  = ls ++ (canonical <$> added).
Proof.
  intros Hls Hadded. rewrite readLines_app by done. f_equal.
  apply readLines_unlines_nil, Forall_fmap.
  eapply Forall_impl; [done|]. apply noLF_canonical_key.
Qed.

Lemma twoTokens_noLF k : twoTokens k → noLF k.
Proof. by intros [_ ?]. Qed.

(** The output of a successful call for two-token keys needs no further
    work for them. *)
Lemma output_converged range newKeyset ls :
  RangeOrder range → Forall twoTokens newKeyset →
  Forall noLF ls → Forall wellFormed ls →
  converged newKeyset
    (unlines ls +:+ unlines (canonical <$> range (pendingAfter newKeyset ls))).
Proof.
  intros Hr Htok Hnl Hwf.
  assert (Forall noLF (range (pendingAfter newKeyset ls))) as Hadded.
  { apply Forall_forall. intros k Hk.
    apply (elem_of_range _ _ _ Hr), elem_of_pendingAfter in Hk as [Hk _].
    apply twoTokens_noLF. by eapply Forall_forall in Htok. }
  split_and!.
  - apply lastFragment_app_unlines; [done|]. apply Forall_fmap.
    eapply Forall_impl; [done|]. apply noLF_canonical_key.
  - rewrite readLines_output by done. apply Forall_app. split; [done|].
    apply Forall_fmap, Forall_forall. intros k _. apply wellFormed_canonical.
  - rewrite readLines_output by done. apply pendingAfter_empty.
    by apply pendingAfter_covered.
Qed.

(** Unless [io.Copy] or [Truncate] fails, a cycle either succeeds and
    leaves the output of the reconciliation in the file, or fails and
    leaves the file as it was. *)
Lemma sync_all_or_nothing range w file file' e :
  copyErr w = None → truncateErr w = None →
  syncGithubKeys range w file = Some (file', e) →
  (e = None
   ∧ ∃ keys res,
       getSSHKeys w = Some (inr keys)
       ∧ ensureKeysetUpToDate range keys (fileReader w file) = Some res
       ∧ err res = None ∧ file' = written res)
  ∨ (e ≠ None ∧ file' = file).
Proof.
  intros Hc Ht. unfold syncGithubKeys.
  destruct (getSSHKeys w) as [[e0|keys]|]; simpl; [by intros [= <- <-]; right| |done].
  destruct (openErr w); [by intros [= <- <-]; right|].
  destruct (ensureKeysetUpToDate range keys (fileReader w file)) as [res|] eqn:Hres;
    simpl; [|done].
  destruct (err res) eqn:Herr; [by intros [= <- <-]; right|].
  destruct (seekErr w); [by intros [= <- <-]; right|].
  rewrite Hc, Ht. intros [= <- <-]. left. split; [done|].
  exists keys, res. split_and!; [done..|]. unfold writeAt0. by rewrite upto_app.
Qed.

(** A cycle that returns [nil] has fetched keys, reconciled without error
    and left the output in the file. *)
Lemma sync_nil range w file file' :
  syncGithubKeys range w file = Some (file', None) →
  ∃ keys res,
    getSSHKeys w = Some (inr keys)
    ∧ ensureKeysetUpToDate range keys (fileReader w file) = Some res
    ∧ err res = None ∧ file' = written res.
Proof.
  unfold syncGithubKeys.
  destruct (getSSHKeys w) as [[e0|keys]|]; simpl; [done| |done].
  destruct (openErr w); [done|].
  destruct (ensureKeysetUpToDate range keys (fileReader w file)) as [res|] eqn:Hres;
    simpl; [|done].
  destruct (err res) eqn:Herr; [done|].
  destruct (seekErr w); [done|].
  destruct (copyErr w) as [[??]|]; [done|].
  destruct (truncateErr w); [done|]. intros [= <-].
  exists keys, res. split_and!; [done..|]. unfold writeAt0. by rewrite upto_app.
Qed.

Lemma sync_nil_converged range w file file' keys :
  RangeOrder range → getSSHKeys w = Some (inr keys) →
  Forall twoTokens keys →
  syncGithubKeys range w file = Some (file', None) →
  converged keys file'.
Proof.
  intros Hr Hkeys Htok (keys' & res & Hkeys' & Hres & Herr & ->)%sync_nil.
  rewrite Hkeys in Hkeys'. simplify_eq.
  destruct (ensure_nil_reader _ _ _ _ Hres Herr) as (_ & Hwf & ->). simpl.
  apply output_converged; [done..|apply noLF_readLines|done].
Qed.

Lemma worker_converged cycles keys file failures :
  converged keys file →
  Forall (λ c, RangeOrder c.1 ∧ fetchesWithin keys c.2 ∧ wholeRead c.2) cycles →
  ∃ failures',
    worker cycles file failures = Some (file, failures ++ failures')
    ∧ length failures' ≤ length cycles.
Proof.
  intros Hconv Hcycles. revert failures.
  induction Hcycles as [|[range w] cycles (Hr & Hfetch & Hread) _ IH];
    intros failures.
  - exists []. by rewrite (right_id_L [] (++)).
  - simpl in *. destruct (sync_total range w file) as [[file' e] Hsync].
    pose proof (sync_converged _ _ _ _ _ _ Hr Hconv Hfetch Hread Hsync) as ->.
    rewrite Hsync. simpl. destruct e as [e|].
    + destruct (IH (failures ++ [e])) as (fs & -> & Hlen).
      exists (e :: fs). rewrite <-(assoc_L (++)). split; [done|]. simpl. lia.
    + destruct (IH failures) as (fs & -> & Hlen). exists fs. split; [done|]. lia.
Qed.

End StableFacts.

(** * Further properties of the program

    Termination, the shape of one turn of the loop, what a successful
    call and a successful cycle produce, and the keys that are fetched. *)

Section Further.
Import Str StrFacts GoFacts LineFacts LoopFacts CallFacts RunFacts FetchFacts.
Import StableFacts.

(** X1.  [ensureKeysetUpToDate] returns on every key set and every
    reader: the reading loop ends before its fuel does. *)
Theorem X1_call_returns range newKeyset r :
  ∃ res, ensureKeysetUpToDate range newKeyset r = Some res.
Proof. apply ensure_reader_total. Qed.

(** X2.  A cycle returns in every world and on every file. *)
Theorem X2_cycle_returns range w file :
  ∃ file' e, syncGithubKeys range w file = Some (file', e).
Proof. destruct (sync_total range w file) as [[file' e] H]. eauto. Qed.

(** X3.  A turn of the loop either returns the malformed-line error or
    writes the line as it was read, followed by a line feed, and deletes
    its key from the map: the branch of line 145 is never taken, since no
    line has more than three parts. *)
Theorem X3_every_line_written_as_read i line st :
  length (SplitN line SP 3) ≤ 3
  ∧ processLine i line st =
    if length (SplitN line SP 3) <? 2 then inl (MalformedLine i)
    else inr (delete (keyOf line) (Fprintln line st)).
Proof. split; [apply SplitN_length|apply processLine_eq]. Qed.

(** X4.  When the call succeeds, the lines read from the file are the
    first lines of the output, as they were and in their order; so the
    unmanaged lines among them appear in the output in their order. *)
Theorem X4_read_lines_pass_through range newKeyset input res :
  ensureKeysetUpToDate range newKeyset (NewReader input) = Some res →
  err res = None →
  (∃ appended, written res = unlines (readLines input) +:+ appended)
  ∧ readLines input `prefix_of` readLines (written res)
  ∧ filter (λ l, isManagedKey l = false) (readLines input)
    `sublist_of` readLines (written res).
Proof.
  intros Hres Herr.
  pose proof (ensure_nil _ _ _ _ Hres Herr) as Hwf.
  rewrite ensure_ok in Hres by done. cbv zeta in Hres. simplify_eq. simpl.
  rewrite readLines_app by apply noLF_readLines. split_and!.
  - by eexists.
  - by eexists.
  - apply sublist_inserts_r, sublist_filter.
Qed.

(** X4 on a file with a comment, a stale managed line and an unmanaged
    key. *)
Lemma X4_witness :
  ensureKeysetUpToDate elements ["ssh-rsa CCC"]
    (NewReader (unlines ["# by hand"; "ssh-rsa OLD synced from github"; "ssh-rsa AAA a@b"]))
  = Some (Result
      (unlines ["# by hand"; "ssh-rsa OLD synced from github"; "ssh-rsa AAA a@b";
                "ssh-rsa CCC synced from github"])
      ["adding key: ssh-rsa CCC"] None)
  ∧ filter (λ l, isManagedKey l = false)
      (readLines (unlines ["# by hand"; "ssh-rsa OLD synced from github"; "ssh-rsa AAA a@b"]))
    `sublist_of`
    readLines (unlines ["# by hand"; "ssh-rsa OLD synced from github"; "ssh-rsa AAA a@b";
                        "ssh-rsa CCC synced from github"]).
Proof.
  split; [vm_compute; reflexivity|].
  apply (X4_read_lines_pass_through elements ["ssh-rsa CCC"]
           (unlines ["# by hand"; "ssh-rsa OLD synced from github"; "ssh-rsa AAA a@b"])
           (Result
              (unlines ["# by hand"; "ssh-rsa OLD synced from github"; "ssh-rsa AAA a@b";
                        "ssh-rsa CCC synced from github"])
              ["adding key: ssh-rsa CCC"] None)).
  - vm_compute. reflexivity.
  - reflexivity.
Defined.

(** X5.  When the keys are fetched, the reconciliation succeeds and no
    system call fails, the file holds exactly the bytes written by the
    reconciliation once the cycle is over. *)
Theorem X5_successful_cycle_replaces_file range w file keys res :
  getSSHKeys w = Some (inr keys) →
  openErr w = None → seekErr w = None → copyErr w = None →
  truncateErr w = None →
  ensureKeysetUpToDate range keys (fileReader w file) = Some res →
  err res = None →
  syncGithubKeys range w file = Some (written res, None).
Proof.
  intros Hkeys Ho Hs Hc Ht Hres Herr. unfold syncGithubKeys.
  rewrite Hkeys. simpl. rewrite Ho, Hres. simpl. rewrite Herr, Hs, Hc, Ht.
  unfold writeAt0. by rewrite upto_app.
Qed.

(** X5 in the calm world. *)
Lemma X5_witness :
  syncGithubKeys elements (calm ["ssh-rsa CCC"])
    (unlines ["ssh-rsa AAA a@b"; "ssh-rsa BBB c@d"; "ssh-rsa DDD e@f"])
  = Some (written
            (Result (unlines ["ssh-rsa AAA a@b"; "ssh-rsa BBB c@d"; "ssh-rsa DDD e@f";
                              "ssh-rsa CCC synced from github"])
                    ["adding key: ssh-rsa CCC"] None),
          None).
Proof.
  apply (X5_successful_cycle_replaces_file elements (calm ["ssh-rsa CCC"])
           (unlines ["ssh-rsa AAA a@b"; "ssh-rsa BBB c@d"; "ssh-rsa DDD e@f"])
           ["ssh-rsa CCC"]
           (Result (unlines ["ssh-rsa AAA a@b"; "ssh-rsa BBB c@d"; "ssh-rsa DDD e@f";
                             "ssh-rsa CCC synced from github"])
                   ["adding key: ssh-rsa CCC"] None)).
  - vm_compute. reflexivity.
  - reflexivity.
  - reflexivity.
  - reflexivity.
  - reflexivity.
  - vm_compute. reflexivity.
  - reflexivity.
Defined.

(** X6.  The keys [getSSHKeys] returns are the lines of the response body
    that end in a line feed, without it: the status is one of 200-299, the
    body was read to its end, and no key holds a line feed. *)
Theorem X6_fetched_keys_are_lines w keys :
  getSSHKeys w = Some (inr keys) →
  Forall noLF keys
  ∧ ∃ resp,
      httpDo w = inr resp
      ∧ 200 ≤ StatusCode resp < 300
      ∧ atEnd (Body resp) = EOF
      ∧ keys = readLines (unread (Body resp)).
Proof.
  unfold getSSHKeys. destruct (newRequestErr w); [done|].
  destruct (httpDo w) as [|resp]; [done|].
  destruct (Nat.ltb_spec (StatusCode resp) 200); [done|].
  destruct (Nat.leb_spec 300 (StatusCode resp)); [done|]. cbn [orb].
  rewrite readKeys_reader.
  destruct (decide (atEnd (Body resp) = EOF)) as [He|]; [|done].
  intros [= <-]. split; [apply noLF_readLines|]. exists resp.
  split_and!; [done|lia..|done|done].
Qed.

(** X6 on a body of two terminated lines and an unterminated third. *)
Lemma X6_witness :
  Forall noLF ["ssh-rsa AAA"; "ssh-rsa CCC"]
  ∧ ∃ resp,
      httpDo (World None
                (inr (mkResponse 200
                        (NewReader (unlines ["ssh-rsa AAA"; "ssh-rsa CCC"] +:+ "ssh-rsa DDD"))))
                None None None None None) = inr resp
      ∧ 200 ≤ StatusCode resp < 300
      ∧ atEnd (Body resp) = EOF
      ∧ ["ssh-rsa AAA"; "ssh-rsa CCC"] = readLines (unread (Body resp)).
Proof.
  apply (X6_fetched_keys_are_lines
           (World None
              (inr (mkResponse 200
                      (NewReader (unlines ["ssh-rsa AAA"; "ssh-rsa CCC"] +:+ "ssh-rsa DDD"))))
              None None None None None)
           ["ssh-rsa AAA"; "ssh-rsa CCC"]).
  vm_compute. reflexivity.
Defined.

(** X7.  A key of the key set that is the key of no line read from the
    file is added: when the call succeeds, its canonical line is among the
    lines appended, once. *)
Theorem X7_new_key_added_once range newKeyset input res k :
  RangeOrder range →
  ensureKeysetUpToDate range newKeyset (NewReader input) = Some res →
  err res = None →
  k ∈ newKeyset →
  (∀ l, l ∈ readLines input → keyOf l ≠ k) →
  ∃ added,
    written res = unlines (readLines input) +:+ unlines (canonical <$> added)
    ∧ logs res = adding <$> added
    ∧ k ∈ added
    ∧ NoDup added.
Proof.
  intros Hr Hres Herr Hk Hnew.
  pose proof (ensure_nil _ _ _ _ Hres Herr) as Hwf.
  rewrite ensure_ok in Hres by done. cbv zeta in Hres. simplify_eq. simpl.
  exists (range (pendingAfter newKeyset (readLines input))).
  split_and!; [done..| |by apply NoDup_range].
  by apply (elem_of_range _ _ _ Hr), elem_of_pendingAfter.
Qed.

(** X7 for the new key ["ssh-rsa CCC"]. *)
Lemma X7_witness :
  ∃ added,
    written (Result (unlines ["ssh-rsa AAA a@b"; "ssh-rsa CCC synced from github"])
               ["adding key: ssh-rsa CCC"] None)
    = unlines (readLines (unlines ["ssh-rsa AAA a@b"]))
      +:+ unlines (canonical <$> added)
    ∧ logs (Result (unlines ["ssh-rsa AAA a@b"; "ssh-rsa CCC synced from github"])
              ["adding key: ssh-rsa CCC"] None)
      = adding <$> added
    ∧ "ssh-rsa CCC" ∈ added
    ∧ NoDup added.
Proof.
  apply (X7_new_key_added_once elements ["ssh-rsa AAA"; "ssh-rsa CCC"]
           (unlines ["ssh-rsa AAA a@b"])
           (Result (unlines ["ssh-rsa AAA a@b"; "ssh-rsa CCC synced from github"])
                   ["adding key: ssh-rsa CCC"] None)
           "ssh-rsa CCC").
  - intros m. reflexivity.
  - vm_compute. reflexivity.
  - reflexivity.
  - apply list_elem_of_lookup. exists 1. reflexivity.
  - intros l Hl. apply list_elem_of_lookup in Hl as [[|[|n]] Hl];
      vm_compute in Hl; [|discriminate Hl..].
    injection Hl as <-. vm_compute. discriminate.
Defined.

(** X8.  On an empty file the output is exactly the canonical lines of
    the keys of the key set, each once, in the order of the map. *)
Theorem X8_empty_file range newKeyset :
  RangeOrder range →
  ∃ added,
    ensureKeysetUpToDate range newKeyset (NewReader "")
    = Some (Result (unlines (canonical <$> added)) (adding <$> added) None)
    ∧ added ≡ₚ elements (hashKeyset newKeyset).
Proof.
  intros Hr. exists (range (hashKeyset newKeyset)). split; [|apply Hr].
  rewrite ensure_ok by constructor. cbv zeta.
  change (readLines "") with (@nil string).
  assert (pendingAfter newKeyset [] = hashKeyset newKeyset) as ->
    by (unfold pendingAfter, keysOf; set_solver).
  by rewrite unlines_nil, app_nil_l.
Qed.

(** X8 for a key set that names one key twice. *)
Lemma X8_witness :
  ∃ added,
    ensureKeysetUpToDate elements ["ssh-rsa AAA"; "ssh-rsa AAA"] (NewReader "")
    = Some (Result (unlines (canonical <$> added)) (adding <$> added) None)
    ∧ added ≡ₚ elements (hashKeyset ["ssh-rsa AAA"; "ssh-rsa AAA"]).
Proof.
  apply (X8_empty_file elements ["ssh-rsa AAA"; "ssh-rsa AAA"]).
  intros m. reflexivity.
Defined.

(** X9.  When reading the file fails after some lines, all well formed,
    the call returns the wrapped read error and adds no key. *)
Theorem X9_read_failure range newKeyset input e :
  e ≠ EOF →
  Forall wellFormed (readLines input) →
  ensureKeysetUpToDate range newKeyset (mkReader input e)
  = Some (Result (unlines (readLines input)) []
            (Some (Wrap e "could not read authorized keys file"))).
Proof.
  intros He Hwf. rewrite ensure_reader. simpl atEnd. simpl unread.
  rewrite processLines_ok by done. simpl. by rewrite decide_False.
Qed.

(** X9 on a read that fails in the middle of the second line. *)
Lemma X9_witness :
  ensureKeysetUpToDate elements ["ssh-rsa CCC"]
    (mkReader (unlines ["ssh-rsa AAA a@b"] +:+ "ssh-rs") (Failure "input/output error"))
  = Some (Result
      (unlines (readLines (unlines ["ssh-rsa AAA a@b"] +:+ "ssh-rs"))) []
      (Some (Wrap (Failure "input/output error") "could not read authorized keys file"))).
Proof.
  apply (X9_read_failure elements ["ssh-rsa CCC"]
           (unlines ["ssh-rsa AAA a@b"] +:+ "ssh-rs") (Failure "input/output error")).
  - discriminate.
  - vm_compute. repeat constructor.
Defined.

(** X10.  The call depends on the key set only as a set, up to the order
    of the added lines: for two key lists with the same members, whatever
    their order and repetitions, and each call with its own order of the
    map, the calls return the same error, write the same bytes before the
    added lines, and add the same keys, in orders that are permutations
    of each other. *)
Theorem X10_key_set_is_a_set range1 range2 R1 R2 r res1 :
  (∀ k, k ∈ R1 ↔ k ∈ R2) →
  RangeOrder range1 → RangeOrder range2 →
  ensureKeysetUpToDate range1 R1 r = Some res1 →
  ∃ res2 body added1 added2,
    ensureKeysetUpToDate range2 R2 r = Some res2
    ∧ err res2 = err res1
    ∧ written res1 = body +:+ unlines (canonical <$> added1)
    ∧ written res2 = body +:+ unlines (canonical <$> added2)
    ∧ logs res1 = adding <$> added1
    ∧ logs res2 = adding <$> added2
    ∧ added1 ≡ₚ added2.
Proof.
  intros HR Hr1 Hr2 Hres.
  assert (ensureKeysetUpToDate range2 R2 r = ensureKeysetUpToDate range2 R1 r) as ->
    by (unfold ensureKeysetUpToDate; by rewrite (hashKeyset_ext R1 R2)).
  destruct (ensure_cases R1 r)
    as [(e & body & H)|(body & pending & _ & H)].
  - rewrite H in Hres. simplify_eq. eexists _, body, [], [].
    split; [apply H|]. simpl. by rewrite unlines_nil, app_nil_r.
  - rewrite H in Hres. simplify_eq.
    eexists _, body, (range1 pending), (range2 pending).
    split; [apply H|]. simpl. split_and!; [done..|].
    by rewrite (Hr1 pending), (Hr2 pending).
Qed.

(** X10 for a key list and the same keys in another order, one of them
    twice, the map being ranged over in opposite orders. *)
Lemma X10_witness :
  ∃ res2 body added1 added2,
    ensureKeysetUpToDate (λ m, reverse (elements m)) ["ssh-rsa CCC"; "ssh-rsa AAA"]
      (NewReader (unlines ["ssh-ed25519 BBB me"])) = Some res2
    ∧ err res2 = None
    ∧ unlines ["ssh-ed25519 BBB me"; "ssh-rsa CCC synced from github";
               "ssh-rsa AAA synced from github"]
      = body +:+ unlines (canonical <$> added1)
    ∧ written res2 = body +:+ unlines (canonical <$> added2)
    ∧ ["adding key: ssh-rsa CCC"; "adding key: ssh-rsa AAA"] = adding <$> added1
    ∧ logs res2 = adding <$> added2
    ∧ added1 ≡ₚ added2.
Proof.
  apply (X10_key_set_is_a_set elements (λ m, reverse (elements m))
           ["ssh-rsa AAA"; "ssh-rsa CCC"; "ssh-rsa AAA"]
           ["ssh-rsa CCC"; "ssh-rsa AAA"]
           (NewReader (unlines ["ssh-ed25519 BBB me"]))
           (Result
              (unlines ["ssh-ed25519 BBB me"; "ssh-rsa CCC synced from github";
                        "ssh-rsa AAA synced from github"])
              ["adding key: ssh-rsa CCC"; "adding key: ssh-rsa AAA"] None)).
  - intros k. rewrite !elem_of_cons, !elem_of_nil. tauto.
  - intros m. reflexivity.
  - intros m. apply reverse_Permutation.
  - vm_compute. reflexivity.
Defined.

(** X11.  The order in which the map is ranged over changes only the
    order of the lines added at the end: two calls on the same input
    return the same error, write the same bytes before the added lines,
    and add the same keys, in orders that are permutations of each
    other. *)
Theorem X11_order_permutes_added_lines range1 range2 newKeyset r res1 :
  RangeOrder range1 → RangeOrder range2 →
  ensureKeysetUpToDate range1 newKeyset r = Some res1 →
  ∃ res2 body added1 added2,
    ensureKeysetUpToDate range2 newKeyset r = Some res2
    ∧ err res2 = err res1
    ∧ written res1 = body +:+ unlines (canonical <$> added1)
    ∧ written res2 = body +:+ unlines (canonical <$> added2)
    ∧ logs res1 = adding <$> added1
    ∧ logs res2 = adding <$> added2
    ∧ added1 ≡ₚ added2.
Proof.
  intros Hr1 Hr2 Hres.
  destruct (ensure_cases newKeyset r)
    as [(e & body & H)|(body & pending & _ & H)].
  - rewrite H in Hres. simplify_eq. eexists _, body, [], [].
    split; [apply H|]. simpl. by rewrite unlines_nil, app_nil_r.
  - rewrite H in Hres. simplify_eq.
    eexists _, body, (range1 pending), (range2 pending).
    split; [apply H|]. simpl. split_and!; [done..|].
    by rewrite (Hr1 pending), (Hr2 pending).
Qed.

(** X11 for the order of [elements] and its reverse. *)
Lemma X11_witness :
  ∃ res2 body added1 added2,
    ensureKeysetUpToDate (λ m, reverse (elements m)) ["ssh-rsa AAA"; "ssh-rsa CCC"]
      (NewReader (unlines ["ssh-ed25519 BBB me"])) = Some res2
    ∧ err res2 = None
    ∧ unlines ["ssh-ed25519 BBB me"; "ssh-rsa CCC synced from github";
               "ssh-rsa AAA synced from github"]
      = body +:+ unlines (canonical <$> added1)
    ∧ written res2 = body +:+ unlines (canonical <$> added2)
    ∧ ["adding key: ssh-rsa CCC"; "adding key: ssh-rsa AAA"] = adding <$> added1
    ∧ logs res2 = adding <$> added2
    ∧ added1 ≡ₚ added2.
Proof.
  apply (X11_order_permutes_added_lines elements (λ m, reverse (elements m))
           ["ssh-rsa AAA"; "ssh-rsa CCC"]
           (NewReader (unlines ["ssh-ed25519 BBB me"]))
           (Result
              (unlines ["ssh-ed25519 BBB me"; "ssh-rsa CCC synced from github";
                        "ssh-rsa AAA synced from github"])
              ["adding key: ssh-rsa CCC"; "adding key: ssh-rsa AAA"] None)).
  - intros m. reflexivity.
  - intros m. apply reverse_Permutation.
  - vm_compute. reflexivity.
Defined.

(** X12.  A successful call writes back just the lines it read, adding
    nothing, exactly when every key of the key set is the key of a line
    read. *)
Theorem X12_nothing_added_iff_covered range newKeyset input res :
  RangeOrder range →
  ensureKeysetUpToDate range newKeyset (NewReader input) = Some res →
  err res = None →
  written res = unlines (readLines input)
  ↔ ∀ k, k ∈ newKeyset → ∃ l, l ∈ readLines input ∧ keyOf l = k.
Proof.
  intros Hr Hres Herr.
  pose proof (ensure_nil _ _ _ _ Hres Herr) as Hwf.
  rewrite ensure_ok in Hres by done. cbv zeta in Hres. simplify_eq. simpl.
  rewrite <-pendingAfter_empty. split.
  - intros H. rewrite <-(app_nil_r (unlines (readLines input))) in H at 2.
    apply (inj _) in H. apply unlines_eq_nil, fmap_nil_inv in H.
    by apply (range_nil range).
  - intros ->. by rewrite (range_empty _ Hr), fmap_nil, unlines_nil, app_nil_r.
Qed.

(** X12 on a file that holds the one key of the key set. *)
Lemma X12_witness :
  written (Result (unlines ["ssh-rsa AAA me@host"]) [] None)
    = unlines (readLines (unlines ["ssh-rsa AAA me@host"]))
  ↔ ∀ k, k ∈ ["ssh-rsa AAA"] →
         ∃ l, l ∈ readLines (unlines ["ssh-rsa AAA me@host"]) ∧ keyOf l = k.
Proof.
  apply (X12_nothing_added_iff_covered elements ["ssh-rsa AAA"]
           (unlines ["ssh-rsa AAA me@host"])
           (Result (unlines ["ssh-rsa AAA me@host"]) [] None)).
  - intros m. reflexivity.
  - vm_compute. reflexivity.
  - reflexivity.
Defined.

(** X13.  The key of a line always holds exactly one space, so a key of
    the key set that does not (a single token, or a key with a comment) is
    the key of no line: every successful call adds it, whatever the file
    holds. *)
Theorem X13_other_keys_always_added range newKeyset input res k :
  RangeOrder range →
  ensureKeysetUpToDate range newKeyset (NewReader input) = Some res →
  err res = None →
  k ∈ newKeyset →
  count SP k ≠ 1 →
  ∃ added,
    written res = unlines (readLines input) +:+ unlines (canonical <$> added)
    ∧ k ∈ added.
Proof.
  intros Hr Hres Herr Hk Hcount.
  pose proof (ensure_nil _ _ _ _ Hres Herr) as Hwf.
  rewrite ensure_ok in Hres by done. cbv zeta in Hres. simplify_eq. simpl.
  eexists. split; [done|].
  apply (elem_of_range _ _ _ Hr), elem_of_pendingAfter. split; [done|].
  intros l Hl <-. apply Hcount, keyOf_count.
  by eapply Forall_forall in Hwf.
Qed.

(** X13 for a key with a comment, on the file a first call wrote for
    it. *)
Lemma X13_witness :
  ∃ added,
    written (Result
               (unlines ["ssh-rsa AAA laptop synced from github";
                         "ssh-rsa AAA laptop synced from github"])
               ["adding key: ssh-rsa AAA laptop"] None)
    = unlines (readLines (unlines ["ssh-rsa AAA laptop synced from github"]))
      +:+ unlines (canonical <$> added)
    ∧ "ssh-rsa AAA laptop" ∈ added.
Proof.
  apply (X13_other_keys_always_added elements ["ssh-rsa AAA laptop"]
           (unlines ["ssh-rsa AAA laptop synced from github"])
           (Result
              (unlines ["ssh-rsa AAA laptop synced from github";
                        "ssh-rsa AAA laptop synced from github"])
              ["adding key: ssh-rsa AAA laptop"] None)
           "ssh-rsa AAA laptop").
  - intros m. reflexivity.
  - vm_compute. reflexivity.
  - reflexivity.
  - apply list_elem_of_lookup. exists 0. reflexivity.
  - vm_compute. discriminate.
Defined.

(** X14.  For keys without a line feed, as the fetched keys are, the
    output of a successful call ends in a line feed and its lines all
    split into two parts: no later call on it, with whatever key set,
    returns an error. *)
Theorem X14_output_is_accepted range newKeyset input res :
  RangeOrder range → Forall noLF newKeyset →
  ensureKeysetUpToDate range newKeyset (NewReader input) = Some res →
  err res = None →
  lastFragment (written res) = ""
  ∧ Forall wellFormed (readLines (written res))
  ∧ ∀ range' newKeyset',
      ∃ res', ensureKeysetUpToDate range' newKeyset' (NewReader (written res))
              = Some res'
              ∧ err res' = None.
Proof.
  intros Hr Hnl Hres Herr.
  pose proof (ensure_nil _ _ _ _ Hres Herr) as Hwf.
  rewrite ensure_ok in Hres by done. cbv zeta in Hres. simplify_eq. simpl.
  set (added := range (pendingAfter newKeyset (readLines input))).
  assert (Forall noLF added) as Hadded.
  { apply Forall_forall. intros k Hk.
    apply (elem_of_range _ _ _ Hr), elem_of_pendingAfter in Hk as [Hk _].
    by eapply Forall_forall in Hnl. }
  assert (Forall wellFormed
            (readLines (unlines (readLines input) +:+ unlines (canonical <$> added))))
    as Hout.
  { rewrite readLines_output by (done || apply noLF_readLines).
    apply Forall_app. split; [done|].
    apply Forall_fmap, Forall_forall. intros k _. apply wellFormed_canonical. }
  split_and!; [|done|].
  - apply lastFragment_app_unlines; [apply noLF_readLines|].
    apply Forall_fmap. eapply Forall_impl; [done|]. apply noLF_canonical_key.
  - intros range' newKeyset'. eexists. split; [by apply ensure_ok|done].
Qed.

(** X14 on a file with an unterminated last line. *)
Lemma X14_witness :
  lastFragment
    (written (Result (unlines ["ssh-rsa AAA a@b"; "ssh-rsa CCC synced from github"])
                ["adding key: ssh-rsa CCC"] None)) = ""
  ∧ Forall wellFormed
      (readLines
         (written (Result (unlines ["ssh-rsa AAA a@b"; "ssh-rsa CCC synced from github"])
                     ["adding key: ssh-rsa CCC"] None)))
  ∧ ∀ range' newKeyset',
      ∃ res',
        ensureKeysetUpToDate range' newKeyset'
          (NewReader
             (written (Result (unlines ["ssh-rsa AAA a@b"; "ssh-rsa CCC synced from github"])
                         ["adding key: ssh-rsa CCC"] None)))
        = Some res'
        ∧ err res' = None.
Proof.
  apply (X14_output_is_accepted elements ["ssh-rsa CCC"]
           (unlines ["ssh-rsa AAA a@b"] +:+ "ssh-ed25519 BBB")
           (Result (unlines ["ssh-rsa AAA a@b"; "ssh-rsa CCC synced from github"])
                   ["adding key: ssh-rsa CCC"] None)).
  - intros m. reflexivity.
  - repeat constructor.
  - vm_compute. reflexivity.
  - reflexivity.
Defined.

(** X15.  Whatever the reader and the outcome, the log of a call lists
    additions only, of keys of the key set and each at most once: no
    removal is ever logged. *)
Theorem X15_log_lists_added_keys range newKeyset r res :
  RangeOrder range →
  ensureKeysetUpToDate range newKeyset r = Some res →
  NoDup (logs res)
  ∧ (∀ entry, entry ∈ logs res → ∃ k, entry = adding k ∧ k ∈ newKeyset)
  ∧ ∀ k, "removing key: " +:+ k ∉ logs res.
Proof.
  intros Hr Hres.
  destruct (ensure_cases newKeyset r)
    as [(e & body & H)|(body & pending & Hsub & H)];
    rewrite H in Hres; simplify_eq; simpl.
  - split_and!; [constructor|by intros ? ?%elem_of_nil|by intros ? ?%elem_of_nil].
  - split_and!.
    + apply NoDup_fmap_2; [|by apply NoDup_range].
      intros k1 k2 E. unfold adding in E. by apply (inj _) in E.
    + intros entry (k & -> & Hk)%list_elem_of_fmap. exists k. split; [done|].
      by apply Hsub, (elem_of_range _ _ _ Hr).
    + intros k (k' & E & _)%list_elem_of_fmap. discriminate E.
Qed.

(** X15 on a file with a stale managed line. *)
Lemma X15_witness :
  NoDup (logs (Result
                 (unlines ["ssh-rsa OLD synced from github";
                           "ssh-rsa NEW synced from github"])
                 ["adding key: ssh-rsa NEW"] None))
  ∧ (∀ entry,
       entry ∈ logs (Result
                       (unlines ["ssh-rsa OLD synced from github";
                                 "ssh-rsa NEW synced from github"])
                       ["adding key: ssh-rsa NEW"] None) →
       ∃ k, entry = adding k ∧ k ∈ ["ssh-rsa NEW"])
  ∧ ∀ k, "removing key: " +:+ k ∉
         logs (Result
                 (unlines ["ssh-rsa OLD synced from github";
                           "ssh-rsa NEW synced from github"])
                 ["adding key: ssh-rsa NEW"] None).
Proof.
  apply (X15_log_lists_added_keys elements ["ssh-rsa NEW"]
           (NewReader (unlines ["ssh-rsa OLD synced from github"]))
           (Result
              (unlines ["ssh-rsa OLD synced from github";
                        "ssh-rsa NEW synced from github"])
              ["adding key: ssh-rsa NEW"] None)).
  - intros m. reflexivity.
  - vm_compute. reflexivity.
Defined.

(** X16.  The key of a line that splits into at least two parts is two
    tokens joined by one space, neither holding a space; the line is its
    key, or its key, a space and the rest of the line. *)
Theorem X16_key_is_two_tokens line :
  wellFormed line →
  count SP (keyOf line) = 1
  ∧ (∃ a b, mem SP a = false ∧ mem SP b = false ∧ keyOf line = a +:+ sp +:+ b)
  ∧ (line = keyOf line ∨ ∃ annotation, line = keyOf line +:+ sp +:+ annotation).
Proof.
  intros H. split; [by apply keyOf_count|].
  destruct (keyOf_shape line H) as (a & b & Ha & Hb & E & Hline). eauto 10.
Qed.

(** X16 on a line with a comment of several words. *)
Lemma X16_witness :
  count SP (keyOf "ssh-rsa AAA my old laptop") = 1
  ∧ (∃ a b, mem SP a = false ∧ mem SP b = false
            ∧ keyOf "ssh-rsa AAA my old laptop" = a +:+ sp +:+ b)
  ∧ ("ssh-rsa AAA my old laptop" = keyOf "ssh-rsa AAA my old laptop"
     ∨ ∃ annotation,
         "ssh-rsa AAA my old laptop"
         = keyOf "ssh-rsa AAA my old laptop" +:+ sp +:+ annotation).
Proof.
  apply (X16_key_is_two_tokens "ssh-rsa AAA my old laptop").
  unfold wellFormed. vm_compute. lia.
Defined.

(** X17.  The errors of [getSSHKeys]: the wrapped error of building the
    request, that of the transport, the status of an answer outside
    200-299 (whose body is then not read), or the wrapped error of a read
    of the body that failed, the keys read before it being dropped. *)
Theorem X17_fetch_errors w e :
  getSSHKeys w = Some (inl e) →
  (∃ e0, newRequestErr w = Some e0 ∧ e = Wrap e0 "could not construct request")
  ∨ (∃ e0, newRequestErr w = None ∧ httpDo w = inl e0
           ∧ e = Wrap e0 "could not make request")
  ∨ (∃ resp, newRequestErr w = None ∧ httpDo w = inr resp
             ∧ ¬ (200 ≤ StatusCode resp < 300)
             ∧ e = Errorf "invalid status code: %v" (StatusCode resp))
  ∨ (∃ resp, newRequestErr w = None ∧ httpDo w = inr resp
             ∧ 200 ≤ StatusCode resp < 300
             ∧ atEnd (Body resp) ≠ EOF
             ∧ e = Wrap (atEnd (Body resp)) "failed to read response body").
Proof.
  unfold getSSHKeys. destruct (newRequestErr w) as [e0|].
  { intros [= <-]. left. by exists e0. }
  destruct (httpDo w) as [e0|resp].
  { intros [= <-]. right; left. by exists e0. }
  destruct (Nat.ltb_spec (StatusCode resp) 200).
  { intros [= <-]. right; right; left. exists resp. split_and!; [done..|lia|done]. }
  destruct (Nat.leb_spec 300 (StatusCode resp)); cbn [orb].
  { intros [= <-]. right; right; left. exists resp. split_and!; [done..|lia|done]. }
  rewrite readKeys_reader.
  destruct (decide (atEnd (Body resp) = EOF)); [done|]. intros [= <-].
  right; right; right. exists resp. split_and!; [done..|lia|done|done].
Qed.

(** X17 on a body whose read fails after two keys. *)
Lemma X17_witness :
  (∃ e0, newRequestErr
           (answering 200 (mkReader (unlines ["ssh-rsa AAA"; "ssh-rsa CCC"])
                                    (Failure "connection reset"))) = Some e0
         ∧ Wrap (Failure "connection reset") "failed to read response body"
           = Wrap e0 "could not construct request")
  ∨ (∃ e0, newRequestErr
             (answering 200 (mkReader (unlines ["ssh-rsa AAA"; "ssh-rsa CCC"])
                                      (Failure "connection reset"))) = None
           ∧ httpDo
               (answering 200 (mkReader (unlines ["ssh-rsa AAA"; "ssh-rsa CCC"])
                                        (Failure "connection reset"))) = inl e0
           ∧ Wrap (Failure "connection reset") "failed to read response body"
             = Wrap e0 "could not make request")
  ∨ (∃ resp, newRequestErr
               (answering 200 (mkReader (unlines ["ssh-rsa AAA"; "ssh-rsa CCC"])
                                        (Failure "connection reset"))) = None
             ∧ httpDo
                 (answering 200 (mkReader (unlines ["ssh-rsa AAA"; "ssh-rsa CCC"])
                                          (Failure "connection reset"))) = inr resp
             ∧ ¬ (200 ≤ StatusCode resp < 300)
             ∧ Wrap (Failure "connection reset") "failed to read response body"
               = Errorf "invalid status code: %v" (StatusCode resp))
  ∨ (∃ resp, newRequestErr
               (answering 200 (mkReader (unlines ["ssh-rsa AAA"; "ssh-rsa CCC"])
                                        (Failure "connection reset"))) = None
             ∧ httpDo
                 (answering 200 (mkReader (unlines ["ssh-rsa AAA"; "ssh-rsa CCC"])
                                          (Failure "connection reset"))) = inr resp
             ∧ 200 ≤ StatusCode resp < 300
             ∧ atEnd (Body resp) ≠ EOF
             ∧ Wrap (Failure "connection reset") "failed to read response body"
               = Wrap (atEnd (Body resp)) "failed to read response body").
Proof.
  apply (X17_fetch_errors
           (answering 200 (mkReader (unlines ["ssh-rsa AAA"; "ssh-rsa CCC"])
                                    (Failure "connection reset")))
           (Wrap (Failure "connection reset") "failed to read response body")).
  vm_compute. reflexivity.
Defined.

(** X18.  An answer with a status in 200-299 whose body, read to its end,
    lists keys without a line feed, one per line, each with its line
    terminator, is fetched as exactly those keys, in their order; bytes
    after the last line feed are not a key. *)
Theorem X18_fetch_round_trip w resp keys tl :
  newRequestErr w = None →
  httpDo w = inr resp →
  200 ≤ StatusCode resp < 300 →
  Body resp = NewReader (unlines keys +:+ tl) →
  Forall noLF keys → noLF tl →
  getSSHKeys w = Some (inr keys).
Proof.
  intros Hn Hd [H1 H2] Hb Hkeys Htl. unfold getSSHKeys. rewrite Hn, Hd.
  destruct (Nat.ltb_spec (StatusCode resp) 200); [lia|].
  destruct (Nat.leb_spec 300 (StatusCode resp)); [lia|]. cbn [orb].
  rewrite readKeys_reader, Hb. simpl atEnd. simpl unread.
  rewrite decide_True by done. by rewrite readLines_unlines.
Qed.

(** X18 for a status of 204 and a body with an unterminated third line. *)
Lemma X18_witness :
  getSSHKeys
    (answering 204
       (NewReader (unlines ["ssh-rsa AAA"; "ssh-ed25519 BBB"] +:+ "ssh-rsa CC")))
  = Some (inr ["ssh-rsa AAA"; "ssh-ed25519 BBB"]).
Proof.
  apply (X18_fetch_round_trip
           (answering 204
              (NewReader (unlines ["ssh-rsa AAA"; "ssh-ed25519 BBB"] +:+ "ssh-rsa CC")))
           (mkResponse 204
              (NewReader (unlines ["ssh-rsa AAA"; "ssh-ed25519 BBB"] +:+ "ssh-rsa CC")))
           ["ssh-rsa AAA"; "ssh-ed25519 BBB"] "ssh-rsa CC").
  - reflexivity.
  - reflexivity.
  - simpl. lia.
  - reflexivity.
  - repeat constructor.
  - reflexivity.
Defined.

(** X19.  Unless [io.Copy] or [Truncate] fails, a cycle is all or
    nothing: it returns no error and the file holds the output of the
    reconciliation of the fetched keys, or it returns an error and the
    file holds what it held. *)
Theorem X19_cycle_all_or_nothing range w file file' e :
  copyErr w = None → truncateErr w = None →
  syncGithubKeys range w file = Some (file', e) →
  (e = None
   ∧ ∃ keys res,
       getSSHKeys w = Some (inr keys)
       ∧ ensureKeysetUpToDate range keys (fileReader w file) = Some res
       ∧ err res = None ∧ file' = written res)
  ∨ (e ≠ None ∧ file' = file).
Proof. apply sync_all_or_nothing. Qed.

(** X19 in a world whose key host answers 503. *)
Lemma X19_witness :
  (Some (Wrap (Errorf "invalid status code: %v" 503)
              "could not get public keys from github") = None
   ∧ ∃ keys res,
       getSSHKeys (answering 503 (NewReader "")) = Some (inr keys)
       ∧ ensureKeysetUpToDate elements keys
           (fileReader (answering 503 (NewReader "")) (unlines ["ssh-rsa AAA me"]))
         = Some res
       ∧ err res = None ∧ unlines ["ssh-rsa AAA me"] = written res)
  ∨ (Some (Wrap (Errorf "invalid status code: %v" 503)
                "could not get public keys from github") ≠ None
     ∧ unlines ["ssh-rsa AAA me"] = unlines ["ssh-rsa AAA me"]).
Proof.
  apply (X19_cycle_all_or_nothing elements (answering 503 (NewReader ""))
           (unlines ["ssh-rsa AAA me"]) (unlines ["ssh-rsa AAA me"])
           (Some (Wrap (Errorf "invalid status code: %v" 503)
                       "could not get public keys from github"))).
  - reflexivity.
  - reflexivity.
  - vm_compute. reflexivity.
Defined.

(** X20.  After a cycle that returned no error, for fetched keys of two
    tokens each, the file needs no further work for them: it ends in a
    line feed, all its lines split into two parts, and every fetched key
    is the key of one of its lines. *)
Theorem X20_successful_cycle_converges range w file file' keys :
  RangeOrder range →
  getSSHKeys w = Some (inr keys) →
  Forall twoTokens keys →
  syncGithubKeys range w file = Some (file', None) →
  converged keys file'.
Proof. apply sync_nil_converged. Qed.

(** X20 on a file whose last line has no line terminator. *)
Lemma X20_witness :
  converged ["ssh-rsa AAA"; "ssh-rsa CCC"]
    (unlines ["ssh-rsa AAA me@host"; "ssh-rsa CCC synced from github"]).
Proof.
  apply (X20_successful_cycle_converges elements
           (calm ["ssh-rsa AAA"; "ssh-rsa CCC"])
           (unlines ["ssh-rsa AAA me@host"] +:+ "ssh-ed25519 BBB")
           (unlines ["ssh-rsa AAA me@host"; "ssh-rsa CCC synced from github"])
           ["ssh-rsa AAA"; "ssh-rsa CCC"]).
  - intros m. reflexivity.
  - vm_compute. reflexivity.
  - repeat constructor.
  - vm_compute. reflexivity.
Defined.

(** X21.  A file that needs no work for the keys [keys] is left as it is
    by every cycle whose key host fails or answers with keys among
    [keys], be they fewer, whatever system call fails during the cycle,
    as long as a read of the file does not stop short without an
    error. *)
Theorem X21_converged_file_is_stable range w keys file :
  RangeOrder range →
  converged keys file →
  fetchesWithin keys w →
  wholeRead w →
  ∃ e, syncGithubKeys range w file = Some (file, e).
Proof.
  intros Hr Hconv Hfetch Hread.
  destruct (sync_total range w file) as [[file' e] Hsync].
  pose proof (sync_converged _ _ _ _ _ _ Hr Hconv Hfetch Hread Hsync) as ->.
  by exists e.
Qed.

(** X21 in a world whose key host no longer lists any key and whose
    [io.Copy] fails after five bytes. *)
Lemma X21_witness :
  ∃ e, syncGithubKeys elements
         (World None (inr (mkResponse 200 (NewReader ""))) None None None
                (Some (5, Failure "disk full")) None)
         (unlines ["ssh-rsa AAA me@host"; "ssh-rsa CCC synced from github"])
       = Some (unlines ["ssh-rsa AAA me@host"; "ssh-rsa CCC synced from github"], e).
Proof.
  apply (X21_converged_file_is_stable elements
           (World None (inr (mkResponse 200 (NewReader ""))) None None None
                  (Some (5, Failure "disk full")) None)
           ["ssh-rsa AAA"; "ssh-rsa CCC"]
           (unlines ["ssh-rsa AAA me@host"; "ssh-rsa CCC synced from github"])).
  - intros m. reflexivity.
  - split_and!.
    + vm_compute. reflexivity.
    + repeat (constructor; [unfold wellFormed; vm_compute; lia|]). constructor.
    + intros k Hk. apply list_elem_of_lookup in Hk as [[|[|n]] Hk];
        vm_compute in Hk; [| |discriminate Hk]; injection Hk as <-.
      * exists "ssh-rsa AAA me@host". split; [|vm_compute; reflexivity].
        apply list_elem_of_lookup. exists 0. vm_compute. reflexivity.
      * exists "ssh-rsa CCC synced from github". split; [|vm_compute; reflexivity].
        apply list_elem_of_lookup. exists 1. vm_compute. reflexivity.
  - intros keys' H k Hk. vm_compute in H. injection H as <-.
    by apply elem_of_nil in Hk.
  - exact I.
Defined.

(** X22.  The loop that serves the triggers keeps a file that needs no
    work as it is through any number of cycles of the kind of X21, and
    logs at most one failure per cycle. *)
Theorem X22_worker_keeps_converged_file cycles keys file :
  converged keys file →
  Forall (λ c, RangeOrder c.1 ∧ fetchesWithin keys c.2 ∧ wholeRead c.2) cycles →
  ∃ failures,
    worker cycles file [] = Some (file, failures)
    ∧ length failures ≤ length cycles.
Proof.
  intros Hconv Hcycles.
  destruct (worker_converged cycles keys file [] Hconv Hcycles) as (fs & H & Hlen).
  by exists fs.
Qed.

(** X22 over a cycle whose key host answers 500 and a cycle that fetches
    the key of the file. *)
Lemma X22_witness :
  ∃ failures,
    worker [(elements, answering 500 (NewReader ""));
            ((λ m, reverse (elements m)), calm ["ssh-rsa AAA"])]
      (unlines ["ssh-rsa AAA me@host"]) []
    = Some (unlines ["ssh-rsa AAA me@host"], failures)
    ∧ length failures ≤ 2.
Proof.
  apply (X22_worker_keeps_converged_file
           [(elements, answering 500 (NewReader ""));
            ((λ m, reverse (elements m)), calm ["ssh-rsa AAA"])]
           ["ssh-rsa AAA"] (unlines ["ssh-rsa AAA me@host"])).
  - split_and!.
    + vm_compute. reflexivity.
    + repeat (constructor; [unfold wellFormed; vm_compute; lia|]). constructor.
    + intros k Hk. apply list_elem_of_lookup in Hk as [[|n] Hk];
        vm_compute in Hk; [|discriminate Hk]; injection Hk as <-.
      exists "ssh-rsa AAA me@host". split; [|vm_compute; reflexivity].
      apply list_elem_of_lookup. exists 0. vm_compute. reflexivity.
  - constructor; [|constructor; [|constructor]]; split_and!.
    + intros m. reflexivity.
    + intros keys' H. vm_compute in H. discriminate H.
    + exact I.
    + intros m. apply reverse_Permutation.
    + intros keys' H k Hk. vm_compute in H. injection H as <-. exact Hk.
    + exact I.
Defined.

(** X23.  A first cycle that returned no error, for fetched keys of two
    tokens each, followed by any number of cycles of the kind of X21 for
    those keys: the loop leaves the file as the first cycle wrote it. *)
Theorem X23_periodic_fixed_point range w cycles keys file file1 :
  RangeOrder range →
  getSSHKeys w = Some (inr keys) →
  Forall twoTokens keys →
  syncGithubKeys range w file = Some (file1, None) →
  Forall (λ c, RangeOrder c.1 ∧ fetchesWithin keys c.2 ∧ wholeRead c.2) cycles →
  ∃ failures,
    worker ((range, w) :: cycles) file [] = Some (file1, failures)
    ∧ length failures ≤ length cycles.
Proof.
  intros Hr Hkeys Htok Hsync Hcycles. simpl. rewrite Hsync. simpl.
  destruct (worker_converged cycles keys file1 []) as (fs & H & Hlen);
    [by eapply sync_nil_converged|done|].
  by exists fs.
Qed.

(** X23 for a first cycle that adds a key, a cycle whose key host
    answers 500, and a cycle that fetches the same keys. *)
Lemma X23_witness :
  ∃ failures,
    worker [(elements, calm ["ssh-rsa AAA"; "ssh-rsa CCC"]);
            (elements, answering 500 (NewReader ""));
            ((λ m, reverse (elements m)), calm ["ssh-rsa CCC"; "ssh-rsa AAA"])]
      (unlines ["ssh-rsa AAA me@host"]) []
    = Some (unlines ["ssh-rsa AAA me@host"; "ssh-rsa CCC synced from github"],
            failures)
    ∧ length failures ≤ 2.
Proof.
  apply (X23_periodic_fixed_point elements (calm ["ssh-rsa AAA"; "ssh-rsa CCC"])
           [(elements, answering 500 (NewReader ""));
            ((λ m, reverse (elements m)), calm ["ssh-rsa CCC"; "ssh-rsa AAA"])]
           ["ssh-rsa AAA"; "ssh-rsa CCC"]
           (unlines ["ssh-rsa AAA me@host"])
           (unlines ["ssh-rsa AAA me@host"; "ssh-rsa CCC synced from github"])).
  - intros m. reflexivity.
  - vm_compute. reflexivity.
  - repeat constructor.
  - vm_compute. reflexivity.
  - constructor; [|constructor; [|constructor]]; split_and!.
    + intros m. reflexivity.
    + intros keys' H. vm_compute in H. discriminate H.
    + exact I.
    + intros m. apply reverse_Permutation.
    + intros keys' H k Hk. vm_compute in H. injection H as <-.
      rewrite !elem_of_cons, !elem_of_nil in Hk |- *. tauto.
    + exact I.
Defined.

(** X24.  [main] with [-disable-periodic-sync], in a world where neither
    [io.Copy] nor [Truncate] fails.  It exits with status 0 only when a
    user name was given, the keys were fetched and the file holds the
    output of their reconciliation, and it has then printed the lines
    that the reconciliation logged, one per key added, and nothing else.
    Otherwise it exits with status 1 and the file holds what it held: it
    has printed the usage message, or the lines the reconciliation logged
    before the cycle failed, followed by the failure of the cycle. *)
Theorem X24_one_shot_exit_status range githubUsername w file file' out status :
  copyErr w = None → truncateErr w = None →
  mainOneShot range githubUsername w file = Some (file', out, status) →
  (status = 0 ∧ githubUsername ≠ ""
   ∧ ∃ keys res,
       getSSHKeys w = Some (inr keys)
       ∧ ensureKeysetUpToDate range keys (fileReader w file) = Some res
       ∧ err res = None ∧ file' = written res
       ∧ out = Logged <$> logs res)
  ∨ (status = 1 ∧ file' = file
     ∧ (githubUsername = "" ∧ out = [Usage]
        ∨ githubUsername ≠ ""
          ∧ ∃ e, out = (Logged <$> cycleLog range w file) ++ [SyncFailed e])).
Proof.
  intros Hc Ht. unfold mainOneShot.
  destruct (decide (githubUsername = "")) as [->|Hname].
  { intros [= <- <- <-]. right. split_and!; [done..|]. by left. }
  destruct (syncGithubKeys range w file) as [[file1 e]|] eqn:Hsync; simpl; [|done].
  destruct (sync_all_or_nothing _ _ _ _ _ Hc Ht Hsync)
    as [[-> (keys & res & Hkeys & Hres & Herr & ->)]|[He ->]].
  - intros [= <- <- <-]. left. split_and!; [done..|].
    exists keys, res. split_and!; [done..|].
    unfold cycleLog. rewrite Hkeys.
    assert (openErr w = None) as ->; [|by rewrite Hres].
    unfold syncGithubKeys in Hsync. rewrite Hkeys in Hsync. simpl in Hsync.
    by destruct (openErr w).
  - destruct e as [e|]; [|done]. intros [= <- <- <-]. right.
    split_and!; [done..|]. right. split; [done|]. by exists e.
Qed.

(** X24 for a run that adds a key and then fails to seek. *)
Lemma X24_witness :
  (1 = 0 ∧ "alice" ≠ ""
   ∧ ∃ keys res,
       getSSHKeys
         (World None (inr (mkResponse 200 (NewReader (unlines ["ssh-rsa CCC"]))))
                None None (Some (Failure "illegal seek")) None None)
       = Some (inr keys)
       ∧ ensureKeysetUpToDate elements keys
           (fileReader
              (World None (inr (mkResponse 200 (NewReader (unlines ["ssh-rsa CCC"]))))
                     None None (Some (Failure "illegal seek")) None None)
              (unlines ["ssh-rsa AAA me"]))
         = Some res
       ∧ err res = None ∧ unlines ["ssh-rsa AAA me"] = written res
       ∧ [Logged "adding key: ssh-rsa CCC";
          SyncFailed (Wrap (Failure "illegal seek")
                           "could not seek authorized keys file")]
         = Logged <$> logs res)
  ∨ (1 = 1 ∧ unlines ["ssh-rsa AAA me"] = unlines ["ssh-rsa AAA me"]
     ∧ ("alice" = "" ∧
        [Logged "adding key: ssh-rsa CCC";
         SyncFailed (Wrap (Failure "illegal seek")
                          "could not seek authorized keys file")] = [Usage]
        ∨ "alice" ≠ ""
          ∧ ∃ e,
              [Logged "adding key: ssh-rsa CCC";
               SyncFailed (Wrap (Failure "illegal seek")
                                "could not seek authorized keys file")]
              = (Logged <$> cycleLog elements
                   (World None (inr (mkResponse 200 (NewReader (unlines ["ssh-rsa CCC"]))))
                          None None (Some (Failure "illegal seek")) None None)
                   (unlines ["ssh-rsa AAA me"]))
                ++ [SyncFailed e])).
Proof.
  apply (X24_one_shot_exit_status elements "alice"
           (World None (inr (mkResponse 200 (NewReader (unlines ["ssh-rsa CCC"]))))
                  None None (Some (Failure "illegal seek")) None None)
           (unlines ["ssh-rsa AAA me"]) (unlines ["ssh-rsa AAA me"])
           [Logged "adding key: ssh-rsa CCC";
            SyncFailed (Wrap (Failure "illegal seek")
                             "could not seek authorized keys file")]
           1).
  - reflexivity.
  - reflexivity.
  - vm_compute. reflexivity.
Defined.

(** X25.  A line of the current file that ends in a line feed (the only
    lines the loop processes: an unterminated last line is not one of
    [readLines]), that splits into three parts, the third being the
    ownership marker, and whose key is in the pending map when the line
    is processed, is written in canonical form (key, one space, marker)
    where it stood: the loop appends exactly that line to the output and
    deletes the key from the map, line [j] of the output is the canonical
    form, and the key is not among the keys added at the end. *)
Theorem X25_processed_managed_line_refreshed
    range newKeyset input res (j : nat) line a b :
  RangeOrder range →
  ensureKeysetUpToDate range newKeyset (NewReader input) = Some res →
  err res = None →
  readLines input !! j = Some line →
  SplitN line SP 3 = [a; b; keyMagicComment] →
  keyOf line ∈ newKeysetHashed (stateAfter newKeyset (take j (readLines input))) →
  output (stateAfter newKeyset (take (S j) (readLines input)))
    = output (stateAfter newKeyset (take j (readLines input)))
      +:+ canonical (keyOf line) +:+ nl
  ∧ (keyOf line ∉ newKeysetHashed (stateAfter newKeyset (take (S j) (readLines input))))
  ∧ readLines (written res) !! j = Some (canonical (keyOf line))
  ∧ (adding (keyOf line) ∉ logs res)
  ∧ (∃ added,
       written res = unlines (readLines input) +:+ unlines (canonical <$> added)
       ∧ keyOf line ∉ added).
Proof.
  intros Hr Hres Herr Hj Hparts _.
  pose proof (ensure_nil _ _ _ _ Hres Herr) as Hwf.
  assert (line = canonical (keyOf line)) as Hline
    by (unfold canonical; by eapply line_of_parts).
  assert (keyOf line ∉ range (pendingAfter newKeyset (readLines input))) as Hnot.
  { rewrite (elem_of_range _ _ _ Hr), elem_of_pendingAfter.
    intros [_ H]. apply (H line); [|done]. by eapply list_elem_of_lookup_2. }
  assert (wellFormed line) as Hl by (by eapply Forall_lookup_1 in Hwf).
  rewrite ensure_ok in Hres by done. cbv zeta in Hres. simplify_eq. simpl.
  rewrite (take_S_r _ _ _ Hj).
  rewrite !stateAfter_ok
    by (repeat first [apply Forall_app; split | by apply Forall_take
                     | by constructor]).
  simpl. split_and!.
  - by rewrite unlines_snoc, <-Hline.
  - rewrite elem_of_pendingAfter. intros [_ H]. apply (H line); [|done].
    apply elem_of_app. right. by apply list_elem_of_singleton.
  - rewrite readLines_app by apply noLF_readLines.
    rewrite lookup_app_l by (by eapply lookup_lt_Some). by rewrite <-Hline.
  - rewrite list_elem_of_fmap. intros (k & E & Hk).
    unfold adding in E. by apply (inj _) in E as <-.
  - by eexists.
Qed.

(** X25 on the file of an unmanaged line and a managed line whose key is
    still in the key set ["ssh-rsa AAA"; "ssh-rsa CCC"]. *)
Lemma X25_witness :
  readLines (unlines ["ssh-ed25519 BBB me"; "ssh-rsa AAA synced from github"]) !! 1
    = Some "ssh-rsa AAA synced from github"
  ∧ readLines
      (unlines ["ssh-ed25519 BBB me"; "ssh-rsa AAA synced from github";
                "ssh-rsa CCC synced from github"]) !! 1
    = Some (canonical (keyOf "ssh-rsa AAA synced from github")).
Proof.
  split; [vm_compute; reflexivity|].
  apply (X25_processed_managed_line_refreshed elements ["ssh-rsa AAA"; "ssh-rsa CCC"]
           (unlines ["ssh-ed25519 BBB me"; "ssh-rsa AAA synced from github"])
           (Result
              (unlines ["ssh-ed25519 BBB me"; "ssh-rsa AAA synced from github";
                        "ssh-rsa CCC synced from github"])
              ["adding key: ssh-rsa CCC"] None)
           1 "ssh-rsa AAA synced from github" "ssh-rsa" "AAA").
  - intros m. reflexivity.
  - vm_compute. reflexivity.
  - reflexivity.
  - vm_compute. reflexivity.
  - vm_compute. reflexivity.
  - vm_compute. reflexivity.
Defined.

(** X26.  The key of every line of the current file that ends in a line
    feed (an unterminated last line is not one of [readLines]), managed
    or not, is deleted from the pending map by the turn of the loop that
    processes the line, and is not among the keys added at the end: the
    bytes written are lines of the file followed by the canonical lines of
    the keys added, and the key of the line is none of them.  The key of
    a line is its first two parts on single spaces, joined by a space. *)
Theorem X26_processed_key_never_added range newKeyset input line :
  RangeOrder range →
  line ∈ readLines input →
  (∀ i st st', processLine i line st = inr st' → keyOf line ∉ newKeysetHashed st')
  ∧ (∃ res n added,
       ensureKeysetUpToDate range newKeyset (NewReader input) = Some res
       ∧ written res
         = unlines (take n (readLines input)) +:+ unlines (canonical <$> added)
       ∧ logs res = adding <$> added
       ∧ keyOf line ∉ added).
Proof.
  intros Hr Hin. split.
  - intros i st st'. rewrite processLine_eq.
    destruct (length (SplitN line SP 3) <? 2); [done|].
    intros [= <-]. simpl. set_solver.
  - destruct (first_malformed (readLines input))
      as [Hwf|(pre & bad & post & E & Hpre & Hbad)].
    + exists (Result (unlines (readLines input) +:+
                unlines (canonical <$> range (pendingAfter newKeyset (readLines input))))
               (adding <$> range (pendingAfter newKeyset (readLines input))) None),
        (length (readLines input)),
        (range (pendingAfter newKeyset (readLines input))).
      split_and!; [by apply ensure_ok|by rewrite firstn_all|done|].
      rewrite (elem_of_range _ _ _ Hr), elem_of_pendingAfter.
      intros [_ H]. by apply (H line).
    + exists (Result (unlines pre) [] (Some (MalformedLine (S (length pre))))),
        (length pre), [].
      split_and!; [by eapply ensure_err| |done|by apply not_elem_of_nil].
      simpl. by rewrite E, take_app_length, unlines_nil, app_nil_r.
Qed.

(** X26 on an unmanaged line whose key ["ssh-rsa AAA"] is in the key
    set. *)
Lemma X26_witness :
  "ssh-rsa AAA me@host" ∈ readLines (unlines ["ssh-rsa AAA me@host"])
  ∧ (∀ i st st',
       processLine i "ssh-rsa AAA me@host" st = inr st' →
       keyOf "ssh-rsa AAA me@host" ∉ newKeysetHashed st')
  ∧ (∃ res n added,
       ensureKeysetUpToDate elements ["ssh-rsa AAA"; "ssh-rsa CCC"]
         (NewReader (unlines ["ssh-rsa AAA me@host"])) = Some res
       ∧ written res
         = unlines (take n (readLines (unlines ["ssh-rsa AAA me@host"])))
           +:+ unlines (canonical <$> added)
       ∧ logs res = adding <$> added
       ∧ keyOf "ssh-rsa AAA me@host" ∉ added).
Proof.
  assert ("ssh-rsa AAA me@host" ∈ readLines (unlines ["ssh-rsa AAA me@host"])) as H.
  { apply list_elem_of_lookup. exists 0. vm_compute. reflexivity. }
  split; [exact H|].
  apply (X26_processed_key_never_added elements ["ssh-rsa AAA"; "ssh-rsa CCC"]
           (unlines ["ssh-rsa AAA me@host"]) "ssh-rsa AAA me@host").
  - intros m. reflexivity.
  - exact H.
Defined.

(** X27.  When a line of the current file that ends in a line feed (the
    line at index [i] of [readLines], numbered [S i]; an unterminated
    last line is not one of them) holds no space, so that [SplitN] on
    single spaces gives fewer than two parts, the call returns the
    malformed-line error with the number of the first such line: a number
    that is at most [S i], and is [S i] when every earlier line splits
    into two parts.  What was written before the error is no output: a
    cycle that fetched the keys and reads the file leaves the file as it
    was. *)
Theorem X27_first_malformed_line range newKeyset input (i : nat) line :
  readLines input !! i = Some line →
  ¬ wellFormed line →
  ∃ res j bad,
    ensureKeysetUpToDate range newKeyset (NewReader input) = Some res
    ∧ err res = Some (MalformedLine (S j))
    ∧ j ≤ i
    ∧ readLines input !! j = Some bad
    ∧ ¬ wellFormed bad
    ∧ Forall wellFormed (take j (readLines input))
    ∧ (Forall wellFormed (take i (readLines input)) → j = i)
    ∧ (∀ w, getSSHKeys w = Some (inr newKeyset) → readErr w = None →
            ∃ e, syncGithubKeys range w input = Some (input, Some e)).
Proof.
  intros Hi Hline.
  destruct (first_malformed (readLines input))
    as [Hwf|(pre & bad & post & E & Hpre & Hbad)].
  { by eapply Forall_lookup_1 in Hwf. }
  assert (readLines input !! length pre = Some bad) as Hj
    by (by rewrite E, list_lookup_middle).
  assert (length pre ≤ i) as Hle.
  { destruct (decide (length pre ≤ i)) as [|Hlt]; [done|]. exfalso.
    apply Hline. eapply (Forall_lookup_1 _ pre i); [done|].
    rewrite E, lookup_app_l in Hi by lia. done. }
  pose proof (ensure_err range newKeyset input pre bad post E Hpre Hbad) as Hres.
  exists (Result (unlines pre) [] (Some (MalformedLine (S (length pre))))),
    (length pre), bad.
  split_and!; [done..| | |].
  - by rewrite E, take_app_length.
  - intros Hwf. destruct (decide (length pre = i)) as [|Hne]; [done|]. exfalso.
    apply Hbad. eapply (Forall_lookup_1 _ _ (length pre)); [done|].
    rewrite lookup_take_lt by lia. done.
  - intros w Hkeys Hread. unfold syncGithubKeys, fileReader.
    rewrite Hkeys, Hread. simpl. destruct (openErr w); [by eexists|].
    rewrite Hres. simpl. by eexists.
Qed.

(** The file ["ssh-rsa AAA me"], ["garbage"], ["x"]: lines 2 and 3 are
    malformed, and line 2 is the one reported. *)
Lemma X27_witness :
  readLines (unlines ["ssh-rsa AAA me"; "garbage"; "x"]) !! 2 = Some "x"
  ∧ ∃ res j bad,
      ensureKeysetUpToDate elements ["ssh-rsa CCC"]
        (NewReader (unlines ["ssh-rsa AAA me"; "garbage"; "x"])) = Some res
      ∧ err res = Some (MalformedLine (S j))
      ∧ j ≤ 2
      ∧ readLines (unlines ["ssh-rsa AAA me"; "garbage"; "x"]) !! j = Some bad
      ∧ ¬ wellFormed bad
      ∧ Forall wellFormed (take j (readLines (unlines ["ssh-rsa AAA me"; "garbage"; "x"])))
      ∧ (Forall wellFormed (take 2 (readLines (unlines ["ssh-rsa AAA me"; "garbage"; "x"])))
         → j = 2)
      ∧ (∀ w, getSSHKeys w = Some (inr ["ssh-rsa CCC"]) → readErr w = None →
              ∃ e, syncGithubKeys elements w
                     (unlines ["ssh-rsa AAA me"; "garbage"; "x"])
                   = Some (unlines ["ssh-rsa AAA me"; "garbage"; "x"], Some e)).
Proof.
  split; [vm_compute; reflexivity|].
  apply (X27_first_malformed_line elements ["ssh-rsa CCC"]
           (unlines ["ssh-rsa AAA me"; "garbage"; "x"]) 2 "x").
  - vm_compute. reflexivity.
  - unfold wellFormed. vm_compute. lia.
Defined.

End Further.
